(** * DIMM: the TypeScript SDK (src/sdk/src) and the engine it talks to

    A shallow embedding of [agent.ts], [utils.ts], [client.ts], [types.ts]
    and [constants.ts], followed by the properties of the spending checks,
    the address derivation, agent listing and agent reloading.

    Conventions.
    - A [BN] (bn.js) is an arbitrary-precision integer: it is a [Z]; where
      the sign flag of a zero matters ([compareBN]) it is a [BNobject].
    - A JavaScript number is a binary64 [float].
    - A thrown JavaScript [Error] is [Throw e]; a returned value is [Ok v].
    - A [Buffer] is a list of bytes; a [PublicKey] is the buffer returned by
      its [toBuffer ()].
    - A JavaScript string whose [length] is taken is the list of its UTF-16
      code units, so that [length] is the JavaScript [length]. *)

From Stdlib Require Import ZArith QArith Lia.
From Stdlib Require Import Strings.Byte.
From stdpp Require Import base option list numbers strings gmap.
From Stdlib Require Import Floats.PrimFloat Floats.SpecFloat Floats.FloatOps.

Open Scope Z_scope.

(** ** Errors and results of calls that may throw

    Every throw site of the SDK has its constructor; an error raised by
    web3.js, bn.js or Node is [External] with its message. *)

Inductive Error : Type :=
| InvalidAgentName
| FailedToFetchCreatedAgent
| FailedToCreateAgent (cause : string)
| External (message : string).

(** [error.message] *)
Definition message (e : Error) : string :=
  match e with
  | InvalidAgentName => "Invalid agent name"
  | FailedToFetchCreatedAgent => "Failed to fetch created agent"
  | FailedToCreateAgent cause => "Failed to create agent: " +:+ cause
  | External m => m
  end.

Inductive Result (A : Type) : Type :=
| Ok (a : A)
| Throw (e : Error).
Arguments Ok {A} a.
Arguments Throw {A} e.

Definition Result_bind {A B} (r : Result A) (k : A -> Result B) : Result B :=
  match r with
  | Ok a => k a
  | Throw e => Throw e
  end.

Declare Scope result_scope.
Delimit Scope result_scope with result.
Notation "x <-- r ;;; k" := (Result_bind r (fun x => k))
  (at level 100, r at next level, right associativity) : result_scope.

(** ** bn.js *)

Module BNjs.

Definition BN : Type := Z.

(** [a.gt(b)] *)
Definition gt (a b : BN) : bool := b <? a.
(** [a.lt(b)] *)
Definition lt (a b : BN) : bool := a <? b.
(** [a.add(b)], [a.sub(b)] *)
Definition add (a b : BN) : BN := a + b.
Definition sub (a b : BN) : BN := a - b.

(** [a.toNumber()]: exact up to 53 bits, an assertion failure beyond. *)
Definition toNumber (a : BN) : Result Z :=
  if Z.abs a <? 2 ^ 53 then Ok a
  else Throw (External "Number can only safely store up to 53 bits").

End BNjs.
Import BNjs.

(** ** types.ts *)

Definition Buffer : Type := list byte.
Definition PublicKey : Type := list byte.
(** UTF-16 code units *)
Definition JSString : Type := list N.

Inductive AgentPermission : Type :=
| TRANSFER_SOL | SWAP_TOKENS | NFT_OPERATIONS | STAKING | GOVERNANCE
| DEFI_PROTOCOLS | TOKEN_ACCOUNTS | EXECUTE_PROGRAMS.

Inductive ActivityType : Type :=
| TRANSFER | SWAP | NFT_OPERATION | ACT_STAKING | ACT_GOVERNANCE
| DEFI_INTERACTION | FUNDING | WITHDRAWAL | OTHER.

Record ProtocolConfig : Type := mkProtocolConfig {
  authority : PublicKey;
  merkleTree : PublicKey;
  totalAgents : BN;
  version : Z;
  paused : bool;
  config_bump : Z
}.

Record AgentAccount : Type := mkAgentAccount {
  mainWallet : PublicKey;
  agentId : BN;
  name : JSString;
  permissions : list AgentPermission;
  maxSolPerTransaction : BN;
  dailyLimit : BN;
  spentToday : BN;
  lastDailyReset : BN;
  totalSpent : BN;
  totalTransactions : BN;
  revoked : bool;
  createdAt : BN;
  lastUsedAt : BN;
  leafIndex : Z;
  bump : Z
}.

(** A [Date]: its time value in milliseconds, [None] for an invalid date. *)
Definition Date : Type := option Z.

(** [AgentStats]; the amounts in SOL are rationals. *)
Record AgentStats : Type := mkAgentStats {
  stats_totalSpent : Q;
  stats_spentToday : Q;
  stats_totalTransactions : Z;
  stats_remainingDailyLimit : Q;
  stats_createdAt : Date;
  stats_lastUsedAt : Date
}.

Record TransactionResult : Type := mkTransactionResult {
  signature : string;
  success : bool;
  error : option string
}.

(** Field updates of an [AgentAccount] *)

Definition with_spentToday (v : BN) (a : AgentAccount) : AgentAccount :=
  mkAgentAccount (mainWallet a) (agentId a) (name a) (permissions a)
    (maxSolPerTransaction a) (dailyLimit a) v (lastDailyReset a)
    (totalSpent a) (totalTransactions a) (revoked a) (createdAt a)
    (lastUsedAt a) (leafIndex a) (bump a).

Definition with_lastDailyReset (v : BN) (a : AgentAccount) : AgentAccount :=
  mkAgentAccount (mainWallet a) (agentId a) (name a) (permissions a)
    (maxSolPerTransaction a) (dailyLimit a) (spentToday a) v
    (totalSpent a) (totalTransactions a) (revoked a) (createdAt a)
    (lastUsedAt a) (leafIndex a) (bump a).

Definition with_revoked (v : bool) (a : AgentAccount) : AgentAccount :=
  mkAgentAccount (mainWallet a) (agentId a) (name a) (permissions a)
    (maxSolPerTransaction a) (dailyLimit a) (spentToday a) (lastDailyReset a)
    (totalSpent a) (totalTransactions a) v (createdAt a)
    (lastUsedAt a) (leafIndex a) (bump a).

(** ** constants.ts *)

Definition PROTOCOL_SEED : Buffer := String.list_byte_of_string "dimm_protocol".
Definition AGENT_SEED : Buffer := String.list_byte_of_string "dimm_agent".
Definition ACTIVITY_SEED : Buffer := String.list_byte_of_string "dimm_activity".

Definition MAX_AGENTS_PER_WALLET : Z := 10000.
Definition MAX_AGENT_NAME_LENGTH : Z := 32.
Definition MAX_REASON_LENGTH : Z := 128.
Definition MIN_AGENT_BALANCE : Z := 5000000.
Definition LAMPORTS_PER_SOL : Z := 1000000000.

(** ** utils.ts: conversions and validation *)

(** [lamportsToSol]: [lamports.toNumber() / LAMPORTS_PER_SOL]. The quotient
    is kept as the exact rational; JavaScript rounds it to a double. *)
Definition lamportsToSol (lamports : BN) : Result Q :=
  (n <-- toNumber lamports ;;; Ok (n # 1000000000)%Q)%result.

(** [formatTimestamp]: [new Date(timestamp.toNumber() * 1000)]. A time value
    beyond 8.64e15 ms makes the date invalid; below that bound the product
    is an exact double. *)
Definition formatTimestamp (timestamp : BN) : Result Date :=
  (n <-- toNumber timestamp ;;;
   Ok (if Z.abs (n * 1000) <=? 8640000000000000 then Some (n * 1000)
       else None))%result.

(** [validateAgentName]: [name.length > 0 && name.length <= 32] *)
Definition validateAgentName (name : JSString) : bool :=
  (0 <? Z.of_nat (length name)) && (Z.of_nat (length name) <=? 32).

(** [validateReason]: [reason.length <= 128] *)
Definition validateReason (reason : JSString) : bool :=
  Z.of_nat (length reason) <=? 128.

(** ** agent.ts: the local view of an agent *)

Record Agent : Type := mkAgent {
  address : PublicKey;
  data : AgentAccount
}.

Definition Agent_with_data (f : AgentAccount -> AgentAccount) (this : Agent)
  : Agent :=
  mkAgent (address this) (f (data this)).

(** [Agent.getStats] *)
Definition getStats (this : Agent) : Result AgentStats :=
  (totalSpent_ <-- lamportsToSol (totalSpent (data this)) ;;;
   spentToday_ <-- lamportsToSol (spentToday (data this)) ;;;
   totalTransactions_ <-- toNumber (totalTransactions (data this)) ;;;
   remainingDailyLimit_ <--
     lamportsToSol (sub (dailyLimit (data this)) (spentToday (data this))) ;;;
   createdAt_ <-- formatTimestamp (createdAt (data this)) ;;;
   lastUsedAt_ <-- formatTimestamp (lastUsedAt (data this)) ;;;
   Ok (mkAgentStats totalSpent_ spentToday_ totalTransactions_
         remainingDailyLimit_ createdAt_ lastUsedAt_))%result.

(** [Agent.canSpend], from its second statement on: [amountLamports] is the
    [BN] that the first statement builds from the amount in SOL,
    [new BN(amountSol * 1_000_000_000)]. The whole method, with that first
    statement, is [Agent_canSpend] further down. *)
Definition canSpend (this : Agent) (amountLamports : BN) : bool :=
  if gt amountLamports (maxSolPerTransaction (data this)) then false
  else
    let newDailyTotal := add (spentToday (data this)) amountLamports in
    if gt newDailyTotal (dailyLimit (data this)) then false
    else true.

(** [Agent.isActive] *)
Definition isActive (this : Agent) : bool := negb (revoked (data this)).

(** ** The lazy daily reset, as the specification words it

    "every check or read first evaluates [now - lastDailyReset >= 86400s];
    if true, [spentToday] is set to 0 and [lastDailyReset = now]". The SDK has
    no such function; this definition is the yardstick the SDK's reads are
    compared with. *)
Definition spec_lazy_reset (now : Z) (a : AgentAccount) : AgentAccount :=
  if 86400 <=? now - lastDailyReset a
  then with_lastDailyReset now (with_spentToday 0 a)
  else a.

(** The condition the specification gives for [canSpend]. *)
Definition spec_canSpend (now : Z) (a : AgentAccount) (amount : Z) : Prop :=
  let a' := spec_lazy_reset now a in
  amount <= maxSolPerTransaction a' /\ spentToday a' + amount <= dailyLimit a'.

(** ** utils.ts: address derivation

    [PublicKey.findProgramAddressSync] and the program id decoded from its
    base-58 text belong to web3.js: they are parameters. *)

Definition byte_of_Z (z : Z) : byte :=
  default "000"%byte (Byte.of_N (Z.to_N (z mod 256))).

(** The [n] low-order bytes of [v], least significant first. *)
Fixpoint le_bytes (n : nat) (v : Z) : list byte :=
  match n with
  | O => []
  | S n' => byte_of_Z v :: le_bytes n' (v / 256)
  end.

(** The number a little-endian byte string stands for. *)
Fixpoint le_value (b : list byte) : Z :=
  match b with
  | [] => 0
  | x :: b' => Z.of_N (Byte.to_N x) + 256 * le_value b'
  end.

(** [const buf = Buffer.alloc(8); buf.writeBigUInt64LE(BigInt(v.toString()))] *)
Definition writeBigUInt64LE (value : BN) : Result Buffer :=
  if (0 <=? value) && (value <? 2 ^ 64) then Ok (le_bytes 8 value)
  else Throw (External "The value of 'value' is out of range").

Section Derivation.

Variable findProgramAddressSync :
  list Buffer -> PublicKey -> string + (PublicKey * Z).

(** A call into a library: its exception is an [External] error. *)
Definition external {A} (r : string + A) : Result A :=
  match r with
  | inl m => Throw (External m)
  | inr a => Ok a
  end.

Definition getProtocolConfigPDA (authority : PublicKey) (programId : PublicKey)
  : Result (PublicKey * Z) :=
  external (findProgramAddressSync [PROTOCOL_SEED; authority] programId).

Definition getAgentAccountPDA (mainWallet : PublicKey) (agentId : BN)
  (programId : PublicKey) : Result (PublicKey * Z) :=
  (agentIdBuffer <-- writeBigUInt64LE agentId ;;;
   external
     (findProgramAddressSync [AGENT_SEED; mainWallet; agentIdBuffer]
        programId))%result.

Definition getActivityPDA (agentAccount : PublicKey) (transactionCount : BN)
  (programId : PublicKey) : Result (PublicKey * Z) :=
  (txCountBuffer <-- writeBigUInt64LE transactionCount ;;;
   external
     (findProgramAddressSync [ACTIVITY_SEED; agentAccount; txCountBuffer]
        programId))%result.

End Derivation.

(** ** client.ts

    The cluster the client talks to is a state of type [World]; an [await]ed
    call takes the world as it is and leaves the world as the call (and
    whatever else happened meanwhile) made it. *)

Definition M (World A : Type) : Type := World -> Result A * World.

Definition ret {World A} (a : A) : M World A := fun w => (Ok a, w).

Definition throw {World A} (e : Error) : M World A := fun w => (Throw e, w).

Definition bind {World A B} (m : M World A) (k : A -> M World B)
  : M World B :=
  fun w =>
    match m w with
    | (Ok a, w') => k a w'
    | (Throw e, w') => (Throw e, w')
    end.

(** [try { body } catch (error) { handler }] *)
Definition try_catch {World A} (body : M World A) (handler : Error -> M World A)
  : M World A :=
  fun w =>
    match body w with
    | (Ok a, w') => (Ok a, w')
    | (Throw e, w') => handler e w'
    end.

(** A computation that does not touch the network. *)
Definition pure_call {World A} (r : Result A) : M World A := fun w => (r, w).

(** A method that catches whatever it raises. *)
Definition total_call {World A} (f : World -> A * World) : M World A :=
  fun w => let '(a, w') := f w in (Ok a, w').

Declare Scope client_scope.
Delimit Scope client_scope with client.
Notation "x <- m ;; k" := (bind m (fun x => k))
  (at level 100, m at next level, right associativity) : client_scope.

(** [new Transaction()] followed by the instructions added to it; the SDK
    adds none. *)
Definition Transaction : Type := list Buffer.

(** What web3.js provides. *)
Class Web3 (World : Type) : Type := {
  AccountInfo : Type;
  DIMM_PROGRAM_ID : PublicKey;
  findProgramAddressSync : list Buffer -> PublicKey -> string + (PublicKey * Z);
  getAccountInfo : PublicKey -> World -> (string + option AccountInfo) * World;
  sendAndConfirmTransaction :
    Transaction -> list PublicKey -> World -> (string + string) * World
}.

(** The two reading methods of [DimmClient], which the other methods call
    through [this]. Both catch every error and answer [null] instead, so
    they never throw. *)
Class ClientReads (World : Type) : Type := {
  getAgentAccount : PublicKey -> World -> option AgentAccount * World;
  getProtocolConfig : PublicKey -> World -> option ProtocolConfig * World
}.

Record DimmClient : Type := mkDimmClient {
  wallet : PublicKey;
  programId : PublicKey
}.

Record CreateAgentParams : Type := mkCreateAgentParams {
  params_name : JSString;
  params_permissions : list AgentPermission;
  params_maxSolPerTransaction : Q;
  params_dailyLimit : Q
}.

Section Client.

Context {World : Type} `{!Web3 World}.

Definition library {A} (f : World -> (string + A) * World) : M World A :=
  fun w => let '(r, w') := f w in (external r, w').

(** [DimmClient.getAgentAccount] as shipped: the deserialisation is left
    open, and the method answers [null] on every path. *)
Definition shipped_getAgentAccount (address : PublicKey) (w : World)
  : option AgentAccount * World :=
  match getAccountInfo address w with
  | (inr None, w') => (None, w')
  | (inr (Some accountInfo), w') => (None, w')
  | (inl err, w') => (None, w')
  end.

(** [DimmClient.getProtocolConfig] as shipped, for the client whose wallet
    is [walletKey]. *)
Definition shipped_getProtocolConfig (walletKey : PublicKey) (w : World)
  : option ProtocolConfig * World :=
  match
    getProtocolConfigPDA findProgramAddressSync walletKey DIMM_PROGRAM_ID
  with
  | Throw err => (None, w)
  | Ok (protocolConfigPDA, _) =>
      match getAccountInfo protocolConfigPDA w with
      | (inr None, w') => (None, w')
      | (inr (Some accountInfo), w') => (None, w')
      | (inl err, w') => (None, w')
      end
  end.

#[local] Instance shipped_reads : ClientReads World := {
  getAgentAccount := shipped_getAgentAccount;
  getProtocolConfig := shipped_getProtocolConfig
}.

End Client.

Section Methods.

Context {World : Type} `{!Web3 World} `{!ClientReads World}.

Local Open Scope client_scope.

(** [DimmClient.getAgent] *)
Definition getAgent (this : DimmClient) (agentId : BN)
  : M World (option Agent) :=
  pda <- pure_call
           (getAgentAccountPDA findProgramAddressSync (wallet this) agentId
              DIMM_PROGRAM_ID) ;;
  agentAccount <- total_call (getAgentAccount (fst pda)) ;;
  match agentAccount with
  | None => ret None
  | Some account => ret (Some (mkAgent (fst pda) account))
  end.

(** [DimmClient.createAgent] *)
Definition createAgent (this : DimmClient) (params : CreateAgentParams)
  : M World Agent :=
  if negb (validateAgentName (params_name params)) then throw InvalidAgentName
  else
    _ <- pure_call
           (getProtocolConfigPDA findProgramAddressSync (wallet this)
              DIMM_PROGRAM_ID) ;;
    protocolConfig <- total_call (getProtocolConfig (wallet this)) ;;
    let agentId :=
      match protocolConfig with
      | Some config => totalAgents config
      | None => 0
      end in
    pda <- pure_call
             (getAgentAccountPDA findProgramAddressSync (wallet this) agentId
                DIMM_PROGRAM_ID) ;;
    let agentPDA := fst pda in
    let tx : Transaction := [] in
    try_catch
      (signature <- library (sendAndConfirmTransaction tx [wallet this]) ;;
       agentAccount <- total_call (getAgentAccount agentPDA) ;;
       match agentAccount with
       | None => throw FailedToFetchCreatedAgent
       | Some account => ret (mkAgent agentPDA account)
       end)
      (fun error => throw (FailedToCreateAgent (message error))).

(** [DimmClient.revokeAgent] *)
Definition revokeAgent (this : DimmClient) (agentAddress : PublicKey)
  : M World TransactionResult :=
  try_catch
    (let tx : Transaction := [] in
     signature <- library (sendAndConfirmTransaction tx [wallet this]) ;;
     ret (mkTransactionResult signature true None))
    (fun error => ret (mkTransactionResult "" false (Some (message error)))).

(** The loop of [DimmClient.listAgents]: [count] iterations are left, the
    next one is for the id [i], and [agents] is the array built so far. *)
Fixpoint listAgents_loop (this : DimmClient) (count : nat) (i : Z)
  (agents : list Agent) : M World (list Agent) :=
  match count with
  | O => ret agents
  | S count' =>
      agent <- getAgent this i ;;
      listAgents_loop this count' (i + 1)
        (match agent with
         | Some a => agents ++ [a]
         | None => agents
         end)
  end.

(** [DimmClient.listAgents] *)
Definition listAgents (this : DimmClient) : M World (list Agent) :=
  protocolConfig <- total_call (getProtocolConfig (wallet this)) ;;
  match protocolConfig with
  | None => ret []
  | Some config =>
      n <- pure_call (toNumber (totalAgents config)) ;;
      listAgents_loop this (Z.to_nat n) 0 []
  end.

(** One lookup per id of [ids], one after the other, each on the world the
    previous one left; the answers in the order of the ids. This is what
    [listAgents] is compared with. *)
Fixpoint lookup_each (this : DimmClient) (ids : list Z)
  : M World (list (option Agent)) :=
  match ids with
  | [] => ret []
  | id :: rest =>
      found <- getAgent this id ;;
      others <- lookup_each this rest ;;
      ret (found :: others)
  end.

(** [Agent.reload]: the value returned is the agent object after the call. *)
Definition reload (this : Agent) : M World Agent :=
  account <- total_call (getAgentAccount (address this)) ;;
  match account with
  | Some fetched => ret (mkAgent (address this) fetched)
  | None => ret this
  end.

(** [Agent.revoke] *)
Definition revoke (client : DimmClient) (this : Agent)
  : M World TransactionResult :=
  revokeAgent client (address this).

End Methods.

(** ** The engine behind the SDK

    The SDK only submits transactions; what a transaction does to the
    accounts is decided by the on-ledger program, whose source the SDK does
    not contain. The module below follows sections 3, 4 and 7 of the
    specification sentence by sentence. *)

Module Engine.

Inductive DimmError : Type :=
| AgentNameTooLong | ExceedsTransactionLimit | ExceedsDailyLimit
| InsufficientPermissions | AgentRevoked | InvalidAmount
| InsufficientBalance | MaxAgentsReached | ReasonTooLong | AgentNotFound
| Unauthorized | InvalidLimitConfiguration | InsufficientAgentBalance
| NumericalOverflow.

(** Modelled from the spec: the record of an executed operation (section 3,
    AgentActivity); the program's own declaration is missing. *)
Record Activity : Type := mkActivity {
  act_agent : Z;
  act_type : ActivityType;
  act_amount : Z;
  act_destination : option PublicKey;
  act_timestamp : Z;
  act_success : bool
}.

(** Modelled from the spec: the accounts the engine owns, as sections 3 and
    4.5 list them. The protocol configuration, the agent accounts by
    [agentId], the balance held by each agent, the number of leaves appended
    to the external leaf store, and the audit trail; the program's account
    declarations are missing. *)
Record State : Type := mkState {
  config : ProtocolConfig;
  agents : gmap Z AgentAccount;
  balances : gmap Z Z;
  leaves : Z;
  ledger : list Activity
}.

Inductive Outcome : Type :=
| Done (st : State)
| Rejected (e : DimmError).

#[local] Instance PublicKey_eq_dec : EqDecision PublicKey :=
  @list_eq_dec byte Byte.byte_eq_dec.

Definition LEAF_CAPACITY : Z := 16384.
Definition U64_MAX : Z := 2 ^ 64 - 1.

Definition checked_add (a b : Z) : option Z :=
  if a + b <=? U64_MAX then Some (a + b) else None.

Definition with_agent (id : Z) (a : AgentAccount) (st : State) : State :=
  mkState (config st) (<[id := a]> (agents st)) (balances st) (leaves st)
    (ledger st).

Definition with_balance (id : Z) (b : Z) (st : State) : State :=
  mkState (config st) (agents st) (<[id := b]> (balances st)) (leaves st)
    (ledger st).

Definition balance_of (id : Z) (st : State) : Z :=
  default 0 (balances st !! id).

(** Modelled from the spec: [create] of section 4.1, whose program source
    is missing. The checks come in the order of the sentence: name, limits,
    capacity; the leaf store reports exhaustion as [MaxAgentsReached]
    (section 6). *)
Definition create (owner : PublicKey) (now : Z) (name_ : JSString)
  (permissions_ : list AgentPermission) (maxPerOperation dailyLimit_ : Z)
  (st : State) : Outcome :=
  if negb ((1 <=? Z.of_nat (length name_)) && (Z.of_nat (length name_) <=? 32))
  then Rejected AgentNameTooLong
  else if negb (maxPerOperation <=? dailyLimit_)
  then Rejected InvalidLimitConfiguration
  else if 10000 <=? totalAgents (config st) then Rejected MaxAgentsReached
  else if LEAF_CAPACITY <=? leaves st then Rejected MaxAgentsReached
  else
    let id := totalAgents (config st) in
    let account :=
      mkAgentAccount owner id name_ permissions_ maxPerOperation dailyLimit_
        0 now 0 0 false now now (leaves st) 0 in
    let cfg := config st in
    Done
      (mkState
         (mkProtocolConfig (authority cfg) (merkleTree cfg)
            (totalAgents cfg + 1) (version cfg) (paused cfg) (config_bump cfg))
         (<[id := account]> (agents st)) (balances st) (leaves st + 1)
         (ledger st)).

(** Modelled from the spec: [revoke] of section 4.1, whose program source
    is missing. *)
Definition revoke (caller : PublicKey) (id : Z) (st : State) : Outcome :=
  match agents st !! id with
  | None => Rejected AgentNotFound
  | Some a =>
      if negb (bool_decide (caller = mainWallet a)) then Rejected Unauthorized
      else if revoked a then Rejected AgentRevoked
      else Done (with_agent id (with_revoked true a) st)
  end.

(** Modelled from the spec: the fixed table of section 4.2, whose program
    source is missing. *)
Definition required_capability (t : ActivityType) : option AgentPermission :=
  match t with
  | TRANSFER => Some TRANSFER_SOL
  | SWAP => Some SWAP_TOKENS
  | NFT_OPERATION => Some NFT_OPERATIONS
  | ACT_STAKING => Some STAKING
  | ACT_GOVERNANCE => Some GOVERNANCE
  | DEFI_INTERACTION => Some DEFI_PROTOCOLS
  | FUNDING | WITHDRAWAL | OTHER => None
  end.

#[local] Instance AgentPermission_eq_dec : EqDecision AgentPermission.
Proof. solve_decision. Defined.

(** Modelled from the spec: [check] of section 4.2. *)
Definition check (a : AgentAccount) (t : ActivityType) : bool :=
  match required_capability t with
  | None => true
  | Some p => bool_decide (p ∈ permissions a)
  end.

(** Modelled from the spec: [replacePermissions] of section 4.2. *)
Definition replacePermissions (caller : PublicKey) (id : Z)
  (newSet : list AgentPermission) (st : State) : Outcome :=
  match agents st !! id with
  | None => Rejected AgentNotFound
  | Some a =>
      if negb (bool_decide (caller = mainWallet a)) then Rejected Unauthorized
      else
        Done
          (with_agent id
             (mkAgentAccount (mainWallet a) (agentId a) (name a) newSet
                (maxSolPerTransaction a) (dailyLimit a) (spentToday a)
                (lastDailyReset a) (totalSpent a) (totalTransactions a)
                (revoked a) (createdAt a) (lastUsedAt a) (leafIndex a)
                (bump a)) st)
  end.

(** Modelled from the spec: [record] of section 4.3. *)
Definition record (now amount : Z) (a : AgentAccount) : option AgentAccount :=
  spent ← checked_add (spentToday a) amount;
  total ← checked_add (totalSpent a) amount;
  count ← checked_add (totalTransactions a) 1;
  Some
    (mkAgentAccount (mainWallet a) (agentId a) (name a) (permissions a)
       (maxSolPerTransaction a) (dailyLimit a) spent (lastDailyReset a)
       total count (revoked a) (createdAt a) now (leafIndex a) (bump a)).

(** Modelled from the spec: [updateLimits] of section 4.3. *)
Definition updateLimits (caller : PublicKey) (id : Z)
  (newMaxPerOperation newDailyLimit : option Z) (st : State) : Outcome :=
  match agents st !! id with
  | None => Rejected AgentNotFound
  | Some a =>
      if negb (bool_decide (caller = mainWallet a)) then Rejected Unauthorized
      else
        let max_ := default (maxSolPerTransaction a) newMaxPerOperation in
        let daily := default (dailyLimit a) newDailyLimit in
        if negb (max_ <=? daily) then Rejected InvalidLimitConfiguration
        else
          Done
            (with_agent id
               (mkAgentAccount (mainWallet a) (agentId a) (name a)
                  (permissions a) max_ daily (spentToday a) (lastDailyReset a)
                  (totalSpent a) (totalTransactions a) (revoked a)
                  (createdAt a) (lastUsedAt a) (leafIndex a) (bump a)) st)
  end.

(** Modelled from the spec: the executor of section 4.4: validate (with the
    lazy reset of section 4.3, [spec_lazy_reset]), check the balance,
    transfer, record, append. *)
Definition execute (now : Z) (id : Z) (t : ActivityType) (amount : Z)
  (destination : option PublicKey) (st : State) : Outcome :=
  match agents st !! id with
  | None => Rejected AgentNotFound
  | Some a0 =>
      if revoked a0 then Rejected AgentRevoked
      else if negb (check a0 t) then Rejected InsufficientPermissions
      else
        let a := spec_lazy_reset now a0 in
        if maxSolPerTransaction a <? amount
        then Rejected ExceedsTransactionLimit
        else if dailyLimit a <? spentToday a + amount
        then Rejected ExceedsDailyLimit
        else if negb (MIN_AGENT_BALANCE <=? balance_of id st - amount)
        then Rejected InsufficientBalance
        else
          match record now amount a with
          | None => Rejected NumericalOverflow
          | Some a' =>
              Done
                (mkState (config st) (<[id := a']> (agents st))
                   (<[id := balance_of id st - amount]> (balances st))
                   (leaves st)
                   (ledger st ++ [mkActivity id t amount destination now true]))
          end
  end.

(** Modelled from the spec: [fund] and [withdraw] of section 4.6. *)
Definition fund (id : Z) (amount : Z) (st : State) : Outcome :=
  match agents st !! id with
  | None => Rejected AgentNotFound
  | Some a =>
      if negb (0 <? amount) then Rejected InvalidAmount
      else Done (with_balance id (balance_of id st + amount) st)
  end.

Definition withdraw (caller : PublicKey) (id : Z) (amount : Z) (st : State)
  : Outcome :=
  match agents st !! id with
  | None => Rejected AgentNotFound
  | Some a =>
      if negb (bool_decide (caller = mainWallet a)) then Rejected Unauthorized
      else if negb (MIN_AGENT_BALANCE <=? balance_of id st - amount)
      then Rejected InsufficientAgentBalance
      else Done (with_balance id (balance_of id st - amount) st)
  end.

(** The caller-facing operations of section 6 that change accounts. *)
Inductive Op : Type :=
| OpCreate (owner : PublicKey) (name_ : JSString)
    (permissions_ : list AgentPermission) (maxPerOperation dailyLimit_ : Z)
| OpRevoke (caller : PublicKey) (id : Z)
| OpUpdatePermissions (caller : PublicKey) (id : Z)
    (newSet : list AgentPermission)
| OpUpdateLimits (caller : PublicKey) (id : Z)
    (newMaxPerOperation newDailyLimit : option Z)
| OpExecute (id : Z) (t : ActivityType) (amount : Z)
    (destination : option PublicKey)
| OpFund (id : Z) (amount : Z)
| OpWithdraw (caller : PublicKey) (id : Z) (amount : Z).

Definition step (now : Z) (op : Op) (st : State) : Outcome :=
  match op with
  | OpCreate owner n p m d => create owner now n p m d st
  | OpRevoke caller id => revoke caller id st
  | OpUpdatePermissions caller id p => replacePermissions caller id p st
  | OpUpdateLimits caller id m d => updateLimits caller id m d st
  | OpExecute id t amount dest => execute now id t amount dest st
  | OpFund id amount => fund id amount st
  | OpWithdraw caller id amount => withdraw caller id amount st
  end.

(** A rejected operation leaves every account as it was (section 7). *)
Definition apply (now : Z) (op : Op) (st : State) : State :=
  match step now op st with
  | Done st' => st'
  | Rejected _ => st
  end.

(** A history: operations with the time each one is applied at. *)
Fixpoint run (history : list (Z * Op)) (st : State) : State :=
  match history with
  | [] => st
  | (now, op) :: rest => run rest (apply now op st)
  end.

Definition is_revoked (id : Z) (st : State) : bool :=
  match agents st !! id with
  | Some a => revoked a
  | None => false
  end.

(** Agent ids are handed out from [totalAgents] upwards, so every account
    that exists has an id below it. *)
Definition well_formed (st : State) : Prop :=
  forall id a, agents st !! id = Some a -> id < totalAgents (config st).

(** The state [initialize] leaves: no agent yet. *)
Definition initial (owner tree : PublicKey) : State :=
  mkState (mkProtocolConfig owner tree 0 1 false 255) ∅ ∅ 0 [].

(** Sample states: an owner with one agent, and a registry at capacity. *)
Definition alice : PublicKey := repeat "a"%byte 32.

Definition one_agent : State :=
  apply 10 (OpCreate alice [65%N] [TRANSFER_SOL] 100000000 1000000000)
    (initial alice ["t"%byte]).

Definition full : State :=
  mkState (mkProtocolConfig alice ["t"%byte] 10000 1 false 255) ∅ ∅ 10000
    [].

End Engine.

(** ** Sample data *)

(** An agent that has used up its whole daily limit of 1 SOL, last reset at
    time 0. *)
Definition spent_out : Agent :=
  mkAgent (repeat "002"%byte 32)
    (mkAgentAccount (repeat "001"%byte 32) 0 [65%N] [TRANSFER_SOL]
       1000000000 1000000000 1000000000 0 1000000000 10 false 0 0 0 255).

(** A stand-in for the address search, to run the derivation on: the seeds
    and the program id, joined. *)
Definition joined_seeds (seeds : list Buffer) (programId : PublicKey)
  : string + (PublicKey * Z) :=
  inr (concat seeds ++ programId, 255).

(** What the array holds once an answer has been handled. *)
Definition push_found (agents : list Agent) (found : option Agent)
  : list Agent :=
  match found with
  | Some a => agents ++ [a]
  | None => agents
  end.

(** ** utils.ts: the remaining helpers that work on integers and lists *)

(** [a.slice(start, end)] of an array or a string, on integer indices: a
    negative index counts from the end, and both ends are clamped. *)
Definition slice {A} (a : list A) (start end_ : Z) : list A :=
  let len := Z.of_nat (length a) in
  let k := if start <? 0 then Z.max (len + start) 0 else Z.min start len in
  let final := if end_ <? 0 then Z.max (len + end_) 0 else Z.min end_ len in
  take (Z.to_nat (final - k)) (drop (Z.to_nat k) a).

(** The loop of [chunk]: [i] is the loop variable and [chunks] the array
    built so far. One unit of [fuel] pays for one iteration; [None] means
    that the loop is still running when the fuel is used up. *)
Fixpoint chunk_loop {A} (fuel : nat) (array : list A) (size : Z) (i : Z)
  (chunks : list (list A)) : option (list (list A)) :=
  if i <? Z.of_nat (length array) then
    match fuel with
    | O => None
    | S fuel' =>
        chunk_loop fuel' array size (i + size)
          (chunks ++ [slice array i (i + size)])
    end
  else Some chunks.

(** [chunk], for an integer [size] *)
Definition chunk {A} (fuel : nat) (array : list A) (size : Z)
  : option (list (list A)) :=
  chunk_loop fuel array size 0 [].

(** A [BN] as bn.js holds it: a sign flag and a magnitude. A zero with the
    sign flag set exists: [new BN(-0.5)] is one. *)
Record BNobject : Type := mkBNobject {
  negative : bool;
  magnitude : N
}.

Definition BN_value (a : BNobject) : Z :=
  if negative a then - Z.of_N (magnitude a) else Z.of_N (magnitude a).

(** No sign flag on a zero. *)
Definition proper (a : BNobject) : Prop :=
  magnitude a = 0%N -> negative a = false.

(** [a.ucmp(b)], [a.cmp(b)], [a.lt(b)] and [a.gt(b)] of bn.js *)
Definition ucmp (a b : BNobject) : Z :=
  match N.compare (magnitude a) (magnitude b) with
  | Lt => -1
  | Eq => 0
  | Gt => 1
  end.

Definition cmp (a b : BNobject) : Z :=
  if negative a && negb (negative b) then -1
  else if negb (negative a) && negative b then 1
  else
    let res := ucmp a b in
    if negative a then - res else res.

Definition BN_lt (a b : BNobject) : bool := cmp a b =? -1.
Definition BN_gt (a b : BNobject) : bool := cmp a b =? 1.

(** [compareBN] *)
Definition compareBN (a b : BNobject) : Z :=
  if BN_lt a b then -1
  else if BN_gt a b then 1
  else 0.

(** [shortenAddress]; [toString] is the base-58 text of a [PublicKey]
    (web3.js), and ["..."] is three full stops. *)
Definition shortenAddress (toString : PublicKey -> JSString)
  (address : JSString + PublicKey) (chars : Z) : JSString :=
  let addr :=
    match address with
    | inl text => text
    | inr key => toString key
    end in
  if Z.of_nat (length addr) <=? chars * 2 then addr
  else
    slice addr 0 chars ++ [46%N; 46%N; 46%N] ++
    slice addr (- chars) (Z.of_nat (length addr)).

(** What [retry] ends with when it does not return: the last error caught,
    or [undefined] when nothing was caught. *)
Inductive Thrown : Type :=
| ThrownError (e : Error)
| ThrownUndefined.

(** [sleep]: the world after the timer has fired. *)
Class Timers (World : Type) : Type := {
  sleep : Z -> World -> World
}.

(** The loop of [retry]: [count] iterations are left, [i] is the loop
    variable and [lastError] the error caught last. *)
Fixpoint retry_loop {World A} `{!Timers World} (fn : M World A)
  (maxRetries delayMs : Z) (count : nat) (i : Z) (lastError : option Error)
  (w : World) : (Thrown + A) * World :=
  match count with
  | O =>
      (inl (match lastError with
            | Some e => ThrownError e
            | None => ThrownUndefined
            end), w)
  | S count' =>
      match fn w with
      | (Ok a, w') => (inr a, w')
      | (Throw e, w') =>
          retry_loop fn maxRetries delayMs count' (i + 1) (Some e)
            (if i <? maxRetries - 1 then sleep delayMs w' else w')
      end
  end.

(** [retry], for an integer [maxRetries] *)
Definition retry {World A} `{!Timers World} (fn : M World A)
  (maxRetries delayMs : Z) (w : World) : (Thrown + A) * World :=
  retry_loop fn maxRetries delayMs (Z.to_nat maxRetries) 0 None w.

(** The world in which attempt number [k] of [retry] starts, provided the
    attempts before it have all failed. *)
Fixpoint world_before {World A} `{!Timers World} (fn : M World A)
  (delayMs : Z) (k : nat) (w : World) : World :=
  match k with
  | O => w
  | S k' => sleep delayMs (fn (world_before fn delayMs k' w)).2
  end.

(** ** client.ts: the methods that submit a transaction

    A JavaScript number and the two operations [solToLamports] applies to it
    are parameters: [times x k] is the double product [x * k], and
    [newBN x] is [new BN(x)], which fails an assertion beyond 53 bits. *)

Class JSNumber : Type := {
  number : Type;
  times : number -> Z -> number;
  newBN : number -> string + BN
}.

Record ExecuteTransactionParams `{!JSNumber} : Type :=
  mkExecuteTransactionParams {
  exec_activityType : ActivityType;
  exec_amount : number;
  exec_destination : option PublicKey;
  exec_instructionData : option Buffer
}.

Record UpdateLimitsParams `{!JSNumber} : Type := mkUpdateLimitsParams {
  limits_maxSolPerTransaction : option number;
  limits_dailyLimit : option number
}.

Section Writes.

Context {World : Type} `{!Web3 World} `{!JSNumber}.

Local Open Scope client_scope.

(** [solToLamports] *)
Definition solToLamports (sol : number) : Result BN :=
  external (newBN (times sol LAMPORTS_PER_SOL)).

(** The [catch] block shared by the methods below. *)
Definition failed (error : Error) : M World TransactionResult :=
  ret (mkTransactionResult "" false (Some (message error))).

(** [DimmClient.initialize]; its optional [maxDepth] and [maxBufferSize] are
    not used. *)
Definition initialize (this : DimmClient) (params : option (Z * Z))
  : M World TransactionResult :=
  try_catch
    (_ <- pure_call
            (getProtocolConfigPDA findProgramAddressSync (wallet this)
               DIMM_PROGRAM_ID) ;;
     let tx : Transaction := [] in
     signature <- library (sendAndConfirmTransaction tx [wallet this]) ;;
     ret (mkTransactionResult signature true None))
    failed.

(** [DimmClient.fundAgent] *)
Definition fundAgent (this : DimmClient) (agentAddress : PublicKey)
  (amount : number) : M World TransactionResult :=
  try_catch
    (lamports <- pure_call (solToLamports amount) ;;
     let tx : Transaction := [] in
     signature <- library (sendAndConfirmTransaction tx [wallet this]) ;;
     ret (mkTransactionResult signature true None))
    failed.

(** [DimmClient.executeTransaction] *)
Definition executeTransaction (this : DimmClient) (agentAddress : PublicKey)
  (params : ExecuteTransactionParams) : M World TransactionResult :=
  try_catch
    (lamports <- pure_call (solToLamports (exec_amount params)) ;;
     let tx : Transaction := [] in
     signature <- library (sendAndConfirmTransaction tx [wallet this]) ;;
     ret (mkTransactionResult signature true None))
    failed.

(** [DimmClient.updatePermissions] *)
Definition updatePermissions (this : DimmClient) (agentAddress : PublicKey)
  (permissions_ : list JSString) : M World TransactionResult :=
  try_catch
    (let tx : Transaction := [] in
     signature <- library (sendAndConfirmTransaction tx [wallet this]) ;;
     ret (mkTransactionResult signature true None))
    failed.

(** [DimmClient.updateLimits] *)
Definition updateLimits (this : DimmClient) (agentAddress : PublicKey)
  (params : UpdateLimitsParams) : M World TransactionResult :=
  try_catch
    (let tx : Transaction := [] in
     signature <- library (sendAndConfirmTransaction tx [wallet this]) ;;
     ret (mkTransactionResult signature true None))
    failed.

(** [DimmClient.withdrawFromAgent] *)
Definition withdrawFromAgent (this : DimmClient) (agentAddress : PublicKey)
  (amount : number) : M World TransactionResult :=
  try_catch
    (lamports <- pure_call (solToLamports amount) ;;
     let tx : Transaction := [] in
     signature <- library (sendAndConfirmTransaction tx [wallet this]) ;;
     ret (mkTransactionResult signature true None))
    failed.

(** [Agent.transferSol] *)
Definition transferSol (client : DimmClient) (this : Agent)
  (destination : PublicKey) (amount : number) : M World TransactionResult :=
  executeTransaction client (address this)
    (mkExecuteTransactionParams _ TRANSFER amount (Some destination) None).

(** What a submitting method returns: the outcome of the submission of an
    empty transaction signed by the wallet. *)
Definition submission (this : DimmClient) (w : World)
  : Result TransactionResult * World :=
  match sendAndConfirmTransaction [] [wallet this] w with
  | (inr sig, w') => (Ok (mkTransactionResult sig true None), w')
  | (inl m, w') => (Ok (mkTransactionResult "" false (Some m)), w')
  end.

End Writes.

(** ** A small cluster to run the client on

    The world is a clock; the address search joins its seeds, so the low
    byte of the agent id is byte 42 of an agent address; every submission
    is confirmed. *)

#[local] Instance byte_eq_decision : EqDecision byte := Byte.byte_eq_dec.

Definition demo_account (key : PublicKey) : AgentAccount :=
  mkAgentAccount (repeat "001"%byte 32) 0 [65%N] [TRANSFER_SOL] 100000000
    1000000000 0 0 0 0 false 0 0 0 255.

#[local] Instance demo_web3 : Web3 nat := {
  AccountInfo := unit;
  DIMM_PROGRAM_ID := repeat "p"%byte 32;
  findProgramAddressSync := joined_seeds;
  getAccountInfo := fun key w => (inr (Some tt), S w);
  sendAndConfirmTransaction := fun tx signers w => (inr "5sig"%string, S w)
}.

(** Reading methods for a configuration that counts [n] agents, of which
    the agent 1 is missing. *)
Definition demo_reads_with (n : BN) : ClientReads nat := {|
  getAgentAccount := fun key w =>
    (if bool_decide (key !! 42%nat = Some "001"%byte) then None
     else Some (demo_account key), S w);
  getProtocolConfig := fun key w =>
    (Some (mkProtocolConfig key [] n 1 false 255), S w)
|}.

#[local] Instance demo_reads : ClientReads nat := demo_reads_with 3.

Definition demo_client : DimmClient :=
  mkDimmClient (repeat "w"%byte 32) (repeat "p"%byte 32).

(** A timer that advances the clock, and a call that fails until the clock
    reaches 2000. *)
#[local] Instance demo_timers : Timers nat := {
  sleep := fun ms w => (w + Z.to_nat ms)%nat
}.

Definition flaky : M nat Z :=
  fun w =>
    if (w <? 2000)%nat then (Throw (External "busy"), S w)
    else (Ok 7, S w).

(** Numbers that are whole, to run the amount conversion on. *)
#[local] Instance demo_numbers : JSNumber := {
  number := Z;
  times := Z.mul;
  newBN := fun x =>
    if Z.abs x <? 2 ^ 53 then inr x else inl "Assertion failed"%string
}.

(** Attempt number [k] of [retry], started from [w0], fails. *)
Definition attempt_fails {World A} `{!Timers World} (fn : M World A)
  (delayMs : Z) (w0 : World) (k : nat) : Prop :=
  exists e, (fn (world_before fn delayMs k w0)).1 = Throw e.

(** What [createAgent] returns on the small cluster for the name "A". *)
Definition createAgent_demo_result : Agent * nat :=
  Eval vm_compute in
    match
      createAgent demo_client (mkCreateAgentParams [65%N] [TRANSFER_SOL] 1 1)
        0%nat
    with
    | (Ok agent, w') => (agent, w')
    | (Throw _, w') => (mkAgent [] (demo_account []), w')
    end.

(** What [listAgents] returns on the small cluster. *)
Definition listAgents_demo_result : list Agent * nat :=
  Eval vm_compute in
    match listAgents demo_client 0%nat with
    | (Ok agents, w') => (agents, w')
    | (Throw _, w') => ([], w')
    end.

(** The agent [a] sits at the agent address derived for the id [id]. *)
Definition at_agent_address {World : Type} `{!Web3 World} (this : DimmClient)
  (id : Z) (a : Agent) : Prop :=
  exists b,
    getAgentAccountPDA findProgramAddressSync (wallet this) id DIMM_PROGRAM_ID
    = Ok (address a, b).

(** ** JavaScript numbers and [new BN(number)]

    A number is a binary64 float, and [x * y] on numbers is the float
    product. *)

(** The integer part of a number, toward zero; [None] for NaN and the
    infinities. *)
Definition number_trunc (x : float) : option Z :=
  match Prim2SF x with
  | S754_zero _ => Some 0
  | S754_finite s m e =>
      let a := if 0 <=? e then Z.pos m * 2 ^ e else Z.pos m / 2 ^ (- e) in
      Some (if s then - a else a)
  | S754_infinity _ => None
  | S754_nan => None
  end.

(** [new BN(x)] of bn.js for a number [x]. The constructor works on
    [x || 0], so NaN counts as 0; it keeps the sign and the integer part of
    the magnitude, and asserts that the magnitude is below 2^53. For a
    negative number above -1 it builds a zero with the sign flag set; [gt]
    and [add] treat that zero as 0 in front of a [BN] read from an account,
    so the value 0 stands for it. *)
Definition BN_of_number (x : float) : string + BN :=
  if is_nan x then inr 0
  else
    match number_trunc x with
    | Some t => if Z.abs t <? 2 ^ 53 then inr t else inl "Assertion failed"
    | None => inl "Assertion failed"
    end.

(** [n] is the integer that [new BN(x)] holds: 0 for NaN, and otherwise the
    integer part of [x], which must be below 2^53 in magnitude. *)
Definition is_BN_of (x : float) (n : Z) : Prop :=
  (is_nan x = true /\ n = 0) \/
  (is_nan x = false /\ number_trunc x = Some n /\ Z.abs n < 2 ^ 53).

(** [Agent.canSpend], whole: its first statement builds the amount in
    lamports from the amount in SOL, and [canSpend] above is the rest. *)
Definition Agent_canSpend (this : Agent) (amountSol : float) : Result bool :=
  (amountLamports <--
     external (BN_of_number (amountSol * 1000000000)%float) ;;;
   Ok (canSpend this amountLamports))%result.

(** An agent whose two limits are one lamport short of 8.2 SOL. *)
Definition one_lamport_short : Agent :=
  mkAgent (repeat "002"%byte 32)
    (mkAgentAccount (repeat "001"%byte 32) 0 [65%N] [TRANSFER_SOL]
       8199999999 8199999999 0 0 0 0 false 0 0 0 255).

(** ** [listAgents], account by account

    For each id of [ids] in turn: derive the agent address; read the account
    at that address; an account found is an agent at that address, a missing
    one is skipped. A failing derivation ends the listing. *)
Fixpoint accounts_at {World : Type} `{!Web3 World} `{!ClientReads World}
  (this : DimmClient) (ids : list Z) (w : World)
  : Result (list Agent) * World :=
  match ids with
  | [] => (Ok [], w)
  | id :: rest =>
      match
        getAgentAccountPDA findProgramAddressSync (wallet this) id
          DIMM_PROGRAM_ID
      with
      | Throw e => (Throw e, w)
      | Ok (agentPDA, _) =>
          let '(account, w1) := getAgentAccount agentPDA w in
          match accounts_at this rest w1 with
          | (Ok agents, w2) =>
              (Ok (match account with
                   | Some fetched => mkAgent agentPDA fetched :: agents
                   | None => agents
                   end), w2)
          | (Throw e, w2) => (Throw e, w2)
          end
      end
  end.

(** * Properties *)

(** ** The spending check of [Agent.canSpend] *)

Lemma gt_false_iff (a b : BN) : gt a b = false <-> a <= b.
Proof. unfold gt. rewrite Z.ltb_ge. reflexivity. Qed.

Lemma canSpend_true_iff (this : Agent) (amount : BN) :
  canSpend this amount = true <->
  amount <= maxSolPerTransaction (data this) /\
  spentToday (data this) + amount <= dailyLimit (data this).
Proof.
  unfold canSpend, add.
  destruct (gt amount _) eqn:Hmax;
    [| destruct (gt (_ + amount) _) eqn:Hday ].
  - apply Z.ltb_lt in Hmax. split; [discriminate | lia].
  - apply Z.ltb_lt in Hday. split; [discriminate | lia].
  - apply gt_false_iff in Hmax, Hday. tauto.
Qed.

(** The lazy reset of the specification clears the day's total of
    [spent_out] at time 86401, so the specification lets it spend 1 SOL
    then. *)
Lemma spec_canSpend_spent_out :
  spec_canSpend 86401 (data spent_out) 1000000000.
Proof. vm_compute. split; discriminate. Qed.

(** One SOL is built as 1000000000 lamports. *)
Lemma BN_of_one_sol : BN_of_number (1 * 1000000000)%float = inr 1000000000.
Proof. vm_compute. reflexivity. Qed.

(** C1, as the claim states it, fails: at time 86401 the agent [spent_out]
    (daily limit used up, last reset at time 0) may spend 1 SOL according to
    the claim's condition, and [Agent.canSpend] returns [false] for 1 SOL. *)
Lemma Agent_canSpend_lazy_reset_counterexample :
  ~ (Agent_canSpend spent_out 1%float = Ok true <->
     spec_canSpend 86401 (data spent_out) 1000000000).
Proof.
  intros [_ H]. specialize (H spec_canSpend_spent_out).
  vm_compute in H. discriminate.
Qed.

Lemma BN_of_number_inr_iff (x : float) (n : Z) :
  BN_of_number x = inr n <-> is_BN_of x n.
Proof.
  unfold BN_of_number, is_BN_of.
  destruct (is_nan x).
  - split.
    + intros [= <-]. left. split; reflexivity.
    + intros [[_ ->] | [[=] _]]. reflexivity.
  - destruct (number_trunc x) as [t |].
    + destruct (Z.abs t <? 2 ^ 53) eqn:Hbound.
      * apply Z.ltb_lt in Hbound. split.
        -- intros [= <-]. right. repeat split. exact Hbound.
        -- intros [[[=] _] | (_ & [= <-] & _)]. reflexivity.
      * apply Z.ltb_ge in Hbound. split; [discriminate |].
        intros [[[=] _] | (_ & [= <-] & Hsmall)]. lia.
    + split; [discriminate |].
      intros [[[=] _] | (_ & [=] & _)].
Qed.

Lemma BN_of_number_inl_iff (x : float) :
  (exists m, BN_of_number x = inl m) <->
  is_nan x = false /\
  forall t, number_trunc x = Some t -> 2 ^ 53 <= Z.abs t.
Proof.
  unfold BN_of_number.
  destruct (is_nan x).
  - split; [intros [m [=]] | intros [[=] _]].
  - destruct (number_trunc x) as [t |].
    + destruct (Z.abs t <? 2 ^ 53) eqn:Hbound.
      * apply Z.ltb_lt in Hbound. split; [intros [m [=]] |].
        intros [_ Hbig]. specialize (Hbig t eq_refl). lia.
      * apply Z.ltb_ge in Hbound. split; [| eauto].
        intros _. split; [reflexivity |]. intros t' [= <-]. exact Hbound.
    + split; [| eauto].
      intros _. split; [reflexivity |]. intros t' [=].
Qed.

(** C1, amended: [Agent.canSpend] returns [true] exactly when the amount in
    lamports that it builds (the double product of the amount in SOL and
    1e9, cut to its integer part, 0 for NaN) is at most
    [maxSolPerTransaction] and, added to the cached [spentToday], at most
    [dailyLimit]; no daily reset is applied first. It throws exactly when
    that product is infinite or has 2^53 or more for its magnitude. *)
Theorem Agent_canSpend_iff_cached_limits (this : Agent) (amountSol : float) :
  (Agent_canSpend this amountSol = Ok true <->
   exists n,
     is_BN_of (amountSol * 1000000000)%float n /\
     n <= maxSolPerTransaction (data this) /\
     spentToday (data this) + n <= dailyLimit (data this)) /\
  ((exists e, Agent_canSpend this amountSol = Throw e) <->
   is_nan (amountSol * 1000000000)%float = false /\
   forall t, number_trunc (amountSol * 1000000000)%float = Some t ->
             2 ^ 53 <= Z.abs t).
Proof.
  unfold Agent_canSpend.
  rewrite <- BN_of_number_inl_iff.
  destruct (BN_of_number (amountSol * 1000000000)%float) as [m | n] eqn:Hn;
    cbn.
  - split.
    + split; [discriminate |].
      intros (n & Hbuilt & _). apply BN_of_number_inr_iff in Hbuilt.
      congruence.
    + split; eauto.
  - apply BN_of_number_inr_iff in Hn. split.
    + split.
      * intros [= Hcan]. apply canSpend_true_iff in Hcan. eauto.
      * intros (n' & Hbuilt & Hlimits).
        assert (n' = n) as ->.
        { apply BN_of_number_inr_iff in Hn, Hbuilt. congruence. }
        f_equal. apply canSpend_true_iff. exact Hlimits.
    + split; [intros [e [=]] | intros [m [=]]].
Qed.

(** The integer part is what counts: 8.2 SOL (the double nearest to it)
    passes limits of 8199999999 lamports. *)
Example Agent_canSpend_truncates :
  Agent_canSpend one_lamport_short 0x1.0666666666666p+3%float = Ok true.
Proof. vm_compute. reflexivity. Qed.

(** From 2^53 lamports on, in either direction, the method throws. *)
Example Agent_canSpend_throws :
  Agent_canSpend spent_out (-10000000)%float =
  Throw (External "Assertion failed").
Proof. vm_compute. reflexivity. Qed.

(** While no reset is due the two conditions coincide. *)
Lemma canSpend_iff_spec_within_window (now : Z) (this : Agent) (amount : BN) :
  now - lastDailyReset (data this) < 86400 ->
  canSpend this amount = true <-> spec_canSpend now (data this) amount.
Proof.
  intros Hwin. unfold spec_canSpend, spec_lazy_reset.
  destruct (86400 <=? _) eqn:Hdue; [apply Z.leb_le in Hdue; lia |].
  apply canSpend_true_iff.
Qed.

(** ** Reads of the spending state and the daily reset *)

Lemma getStats_spent_out :
  getStats spent_out =
  Ok (mkAgentStats (1000000000 # 1000000000) (1000000000 # 1000000000) 10
        (0 # 1000000000) (Some 0) (Some 0)).
Proof. reflexivity. Qed.

(** C2, as the claim states it, fails: with [lastDailyReset = 0], a read and
    a check at time [0 + 86400 + 1] still see the whole day's total:
    [getStats] reports 1 SOL spent today, not what it would report after the
    reset, and [canSpend] refuses an amount the reset state would allow. *)
Lemma reads_apply_no_reset_counterexample :
  lastDailyReset (data spent_out) = 0 /\
  spentToday (spec_lazy_reset (0 + 86400 + 1) (data spent_out)) = 0 /\
  getStats spent_out <>
    getStats (Agent_with_data (spec_lazy_reset (0 + 86400 + 1)) spent_out) /\
  canSpend spent_out 1000000000 <>
    canSpend (Agent_with_data (spec_lazy_reset (0 + 86400 + 1)) spent_out)
      1000000000.
Proof. vm_compute. repeat split; discriminate. Qed.

(** C2, amended: [getStats] and [canSpend] work on the cached [spentToday] as
    it is and never look at [lastDailyReset]: whatever the time of the last
    reset, they give the same result, so a check at [T + 86400 + 1] sees
    [spentToday] unchanged just as a check at [T + 86399] does. *)
Theorem reads_ignore_lastDailyReset (this : Agent) (T : BN) (amount : BN) :
  getStats (Agent_with_data (with_lastDailyReset T) this) = getStats this /\
  canSpend (Agent_with_data (with_lastDailyReset T) this) amount =
    canSpend this amount.
Proof. split; reflexivity. Qed.

(** What the specification's reset would do at the two times of the claim. *)
Lemma spec_lazy_reset_boundary (T : Z) (a : AgentAccount) :
  lastDailyReset a = T ->
  spentToday (spec_lazy_reset (T + 86400 + 1) a) = 0 /\
  spec_lazy_reset (T + 86399) a = a.
Proof.
  intros HT. unfold spec_lazy_reset. rewrite HT.
  replace (T + 86400 + 1 - T) with 86401 by lia.
  replace (T + 86399 - T) with 86399 by lia.
  split; reflexivity.
Qed.

(** ** [canSpend] and the [revoked] flag *)

(** C8: the answer of [canSpend] is the same whatever the [revoked] flag is
    set to; two agent states that differ only in that flag get the same
    answer, and a revoked agent within its limits gets [true]. *)
Theorem canSpend_ignores_revoked (this : Agent) (flag : bool) (amount : BN) :
  canSpend (Agent_with_data (with_revoked flag) this) amount =
  canSpend this amount.
Proof. reflexivity. Qed.

Lemma with_revoked_same (a : AgentAccount) : with_revoked (revoked a) a = a.
Proof. destruct a; reflexivity. Qed.

(** Two states that agree on every field but [revoked]. *)
Lemma canSpend_differ_only_in_revoked (this other : Agent) (amount : BN) :
  Agent_with_data (with_revoked true) this =
    Agent_with_data (with_revoked true) other ->
  canSpend this amount = canSpend other amount.
Proof.
  intros Heq.
  change (canSpend (Agent_with_data (with_revoked true) this) amount =
          canSpend (Agent_with_data (with_revoked true) other) amount).
  rewrite Heq. reflexivity.
Qed.

Example revoked_agent_canSpend :
  let agent :=
    Agent_with_data (with_spentToday 0 ∘ with_revoked true) spent_out in
  isActive agent = false /\ canSpend agent 1000000000 = true.
Proof. split; reflexivity. Qed.

(** ** [canSpend] is antitone in the amount *)



(** ** Validation of the agent name *)

Lemma validateAgentName_true_iff (n : JSString) :
  validateAgentName n = true <-> 1 <= Z.of_nat (length n) <= 32.
Proof.
  unfold validateAgentName.
  rewrite andb_true_iff, Z.ltb_lt, Z.leb_le. lia.
Qed.

Lemma validateAgentName_false_iff (n : JSString) :
  validateAgentName n = false <-> length n = 0%nat \/ 32 < Z.of_nat (length n).
Proof.
  rewrite <- not_true_iff_false, validateAgentName_true_iff. lia.
Qed.

Section CreateAgent.

Context {World : Type} `{!Web3 World} `{!ClientReads World}.

Lemma createAgent_invalid_name (this : DimmClient) (params : CreateAgentParams)
  (w : World) :
  validateAgentName (params_name params) = false ->
  createAgent this params w = (Throw InvalidAgentName, w).
Proof. intros Hname. unfold createAgent. rewrite Hname. reflexivity. Qed.

Lemma external_throws_External {A} (r : string + A) (e : Error) :
  external r = Throw e -> exists m, e = External m.
Proof. destruct r; cbn; intros [= <-]; eauto. Qed.

Lemma writeBigUInt64LE_throws_External (v : BN) (e : Error) :
  writeBigUInt64LE v = Throw e -> exists m, e = External m.
Proof.
  unfold writeBigUInt64LE. destruct (_ && _); intros [= <-]; eauto.
Qed.

Lemma getProtocolConfigPDA_throws_External (key pid : PublicKey) (e : Error) :
  getProtocolConfigPDA findProgramAddressSync key pid = Throw e ->
  exists m, e = External m.
Proof. apply external_throws_External. Qed.

Lemma getAgentAccountPDA_throws_External (key pid : PublicKey) (id : BN)
  (e : Error) :
  getAgentAccountPDA findProgramAddressSync key id pid = Throw e ->
  exists m, e = External m.
Proof.
  unfold getAgentAccountPDA.
  destruct (writeBigUInt64LE id) as [buf | e'] eqn:Hbuf; cbn.
  - apply external_throws_External.
  - intros [= <-]. exact (writeBigUInt64LE_throws_External _ _ Hbuf).
Qed.

Lemma createAgent_valid_name (this : DimmClient) (params : CreateAgentParams)
  (w : World) :
  validateAgentName (params_name params) = true ->
  (createAgent this params w).1 <> Throw InvalidAgentName.
Proof.
  intros Hname. unfold createAgent. rewrite Hname. cbn [negb].
  unfold bind at 1. unfold pure_call at 1.
  destruct (getProtocolConfigPDA _ _ _) as [cfgPDA | e] eqn:HcfgPDA; cbn.
  2: { intros [= ->].
       destruct (getProtocolConfigPDA_throws_External _ _ _ HcfgPDA);
         discriminate. }
  unfold bind at 1. unfold total_call at 1.
  destruct (getProtocolConfig (wallet this) w) as [protocolConfig w1].
  unfold bind at 1. unfold pure_call at 1.
  destruct (getAgentAccountPDA _ _ _ _) as [pda | e] eqn:Hpda; cbn.
  2: { intros [= ->].
       destruct (getAgentAccountPDA_throws_External _ _ _ _ Hpda);
         discriminate. }
  unfold try_catch.
  match goal with
  | |- context [let (_, _) := ?body w1 in _] => destruct (body w1) as [[] ?]
  end; cbn; discriminate.
Qed.

(** C5: [validateAgentName] accepts exactly the names of 1 to 32 code units,
    and [createAgent] is rejected with the name-validation error exactly when
    the name is empty or longer than 32. *)
Theorem createAgent_rejects_name_iff (this : DimmClient)
  (params : CreateAgentParams) (w : World) :
  (validateAgentName (params_name params) = true <->
   1 <= Z.of_nat (length (params_name params)) <= 32) /\
  ((createAgent this params w).1 = Throw InvalidAgentName <->
   length (params_name params) = 0%nat \/
   32 < Z.of_nat (length (params_name params))).
Proof.
  split; [apply validateAgentName_true_iff |].
  rewrite <- validateAgentName_false_iff.
  destruct (validateAgentName (params_name params)) eqn:Hname.
  - split; [| discriminate].
    intros Hthrow. exfalso.
    exact (createAgent_valid_name this params w Hname Hthrow).
  - rewrite (createAgent_invalid_name this params w Hname). tauto.
Qed.

End CreateAgent.

(** ** What the SDK's [revokeAgent] does *)

Section RevokeAgent.

Context {World : Type} `{!Web3 World} `{!ClientReads World}.

(** [revokeAgent] submits an empty transaction and reports how the
    submission went; it checks nothing itself and touches no agent object.
    What a revoke does to the account is the engine's business, below. *)
Lemma revokeAgent_reports_submission (this : DimmClient)
  (agentAddress : PublicKey) (w : World) :
  revokeAgent this agentAddress w =
  match sendAndConfirmTransaction [] [wallet this] w with
  | (inr sig, w') => (Ok (mkTransactionResult sig true None), w')
  | (inl m, w') => (Ok (mkTransactionResult "" false (Some m)), w')
  end.
Proof.
  unfold revokeAgent, try_catch, bind, library, ret.
  destruct (sendAndConfirmTransaction [] [wallet this] w) as [[m | sig] w'];
    reflexivity.
Qed.

End RevokeAgent.

(** ** Address derivation *)

Lemma byte_of_Z_value (z : Z) : Z.of_N (Byte.to_N (byte_of_Z z)) = z mod 256.
Proof.
  unfold byte_of_Z.
  assert (Hrange : 0 <= z mod 256 < 256) by (apply Z.mod_pos_bound; lia).
  destruct (Byte.of_N (Z.to_N (z mod 256))) as [b |] eqn:Hb; cbn.
  - apply Byte.to_of_N in Hb. rewrite Hb. lia.
  - apply Byte.of_N_None_iff in Hb. lia.
Qed.

Lemma length_le_bytes (n : nat) (v : Z) : length (le_bytes n v) = n.
Proof.
  revert v. induction n as [| n IH]; intros v; cbn; [| rewrite IH]; done.
Qed.

Lemma le_value_le_bytes (n : nat) (v : Z) :
  le_value (le_bytes n v) = v mod 256 ^ Z.of_nat n.
Proof.
  revert v. induction n as [| n IH]; intros v.
  - cbn. rewrite Z.mod_1_r. reflexivity.
  - cbn [le_bytes le_value]. rewrite byte_of_Z_value, IH.
    rewrite Nat2Z.inj_succ, Z.pow_succ_r by lia.
    rewrite Z.rem_mul_r by lia. reflexivity.
Qed.

Lemma writeBigUInt64LE_in_range (v : BN) :
  0 <= v < 2 ^ 64 ->
  exists buf, writeBigUInt64LE v = Ok buf /\ length buf = 8%nat /\
              le_value buf = v.
Proof.
  intros Hv. exists (le_bytes 8 v). unfold writeBigUInt64LE.
  replace ((0 <=? v) && (v <? 2 ^ 64)) with true
    by (symmetry; apply andb_true_iff; lia).
  split; [reflexivity |]. split; [apply length_le_bytes |].
  rewrite le_value_le_bytes. apply Z.mod_small.
  change (256 ^ Z.of_nat 8) with (2 ^ 64). lia.
Qed.

(** Beyond 64 bits, and below 0, nothing is derived. *)
Lemma writeBigUInt64LE_out_of_range (v : BN) :
  v < 0 \/ 2 ^ 64 <= v -> exists e, writeBigUInt64LE v = Throw e.
Proof.
  intros Hv. unfold writeBigUInt64LE.
  replace ((0 <=? v) && (v <? 2 ^ 64)) with false; [eauto |].
  symmetry. apply andb_false_iff. lia.
Qed.

(** Different counters give different seeds. *)
Lemma writeBigUInt64LE_inj (v v' : BN) (buf : Buffer) :
  0 <= v < 2 ^ 64 -> 0 <= v' < 2 ^ 64 ->
  writeBigUInt64LE v = Ok buf -> writeBigUInt64LE v' = Ok buf -> v = v'.
Proof.
  intros Hv Hv' Hbuf Hbuf'.
  destruct (writeBigUInt64LE_in_range v Hv) as (b & Hb & _ & Hval).
  destruct (writeBigUInt64LE_in_range v' Hv') as (b' & Hb' & _ & Hval').
  congruence.
Qed.

Section DerivationProperties.

Variable findProgramAddressSync :
  list Buffer -> PublicKey -> string + (PublicKey * Z).

(** C6: each address is the program address found for the stated seeds: the
    protocol seed and the owner; the agent seed, the owner and the 8
    little-endian bytes of [agentId]; the activity seed, the agent and the 8
    little-endian bytes of [transactionCount]. The result is a function of
    these inputs alone. *)
Theorem pda_seeds (owner agent programId : PublicKey)
  (agentId transactionCount : BN) :
  0 <= agentId < 2 ^ 64 ->
  0 <= transactionCount < 2 ^ 64 ->
  getProtocolConfigPDA findProgramAddressSync owner programId =
    external
      (findProgramAddressSync
         [String.list_byte_of_string "dimm_protocol"; owner] programId) /\
  (exists idBytes : Buffer,
     length idBytes = 8%nat /\ le_value idBytes = agentId /\
     getAgentAccountPDA findProgramAddressSync owner agentId programId =
       external
         (findProgramAddressSync
            [String.list_byte_of_string "dimm_agent"; owner; idBytes]
            programId)) /\
  (exists countBytes : Buffer,
     length countBytes = 8%nat /\ le_value countBytes = transactionCount /\
     getActivityPDA findProgramAddressSync agent transactionCount programId =
       external
         (findProgramAddressSync
            [String.list_byte_of_string "dimm_activity"; agent; countBytes]
            programId)).
Proof.
  intros Hid Hcount. split; [reflexivity |]. split.
  - destruct (writeBigUInt64LE_in_range agentId Hid)
      as (buf & Hbuf & Hlen & Hval).
    exists buf. repeat split; try assumption.
    unfold getAgentAccountPDA. rewrite Hbuf. reflexivity.
  - destruct (writeBigUInt64LE_in_range transactionCount Hcount)
      as (buf & Hbuf & Hlen & Hval).
    exists buf. repeat split; try assumption.
    unfold getActivityPDA. rewrite Hbuf. reflexivity.
Qed.

End DerivationProperties.

Lemma pda_seeds_witness :
  exists idBytes : Buffer,
    length idBytes = 8%nat /\ le_value idBytes = 258 /\
    getAgentAccountPDA joined_seeds ["w"%byte] 258 ["p"%byte] =
      external
        (joined_seeds
           [String.list_byte_of_string "dimm_agent"; ["w"%byte]; idBytes]
           ["p"%byte]).
Proof.
  exact (proj1 (proj2
    (pda_seeds joined_seeds ["w"%byte] ["a"%byte] ["p"%byte] 258 7
       ltac:(lia) ltac:(lia)))).
Defined.

Example agent_id_258_bytes :
  writeBigUInt64LE 258 =
  Ok ["002"; "001"; "000"; "000"; "000"; "000"; "000"; "000"]%byte.
Proof. reflexivity. Qed.

(** ** Listing the agents *)

Section ListAgents.

Context {World : Type} `{!Web3 World} `{!ClientReads World}.

Local Open Scope client_scope.

Lemma bind_ret_l {A B} (a : A) (k : A -> M World B) (w : World) :
  bind (ret a) k w = k a w.
Proof. reflexivity. Qed.

Lemma bind_assoc {A B C} (m : M World A) (k : A -> M World B)
  (h : B -> M World C) (w : World) :
  bind (bind m k) h w = bind m (fun a => bind (k a) h) w.
Proof. unfold bind. destruct (m w) as [[a | e] w']; reflexivity. Qed.

Lemma bind_ext {A B} (m : M World A) (k k' : A -> M World B) (w : World) :
  (forall a w', k a w' = k' a w') -> bind m k w = bind m k' w.
Proof. intros Hk. unfold bind. destruct (m w) as [[a | e] w']; auto. Qed.

Lemma push_found_omap (agents : list Agent) (found : option Agent)
  (others : list (option Agent)) :
  push_found agents found ++ omap id others =
  agents ++ omap id (found :: others).
Proof. destruct found; cbn; [rewrite <- app_assoc |]; reflexivity. Qed.

(** The loop, started in the middle: it appends to [agents] the agents found
    by [count] lookups for the ids from [i] on. *)
Lemma listAgents_loop_lookup_each (this : DimmClient) (count : nat) (i : Z)
  (agents : list Agent) (w : World) :
  listAgents_loop this count i agents w =
  (found <- lookup_each this (seqZ i (Z.of_nat count)) ;;
   ret (agents ++ omap id found)) w.
Proof.
  revert i agents w. induction count as [| count IH]; intros i agents w.
  - rewrite seqZ_nil by lia. cbn. unfold bind, ret.
    rewrite app_nil_r. reflexivity.
  - rewrite seqZ_cons by lia.
    replace (Z.pred (Z.of_nat (S count))) with (Z.of_nat count) by lia.
    cbn [listAgents_loop lookup_each].
    rewrite bind_assoc. apply bind_ext. intros found w1.
    fold (push_found agents found). rewrite IH.
    replace (i + 1) with (Z.succ i) by lia.
    rewrite bind_assoc. apply bind_ext. intros others w2.
    rewrite bind_ret_l. unfold ret. rewrite push_found_omap. reflexivity.
Qed.

(** [listAgents] in terms of [getAgent]: one call per id from 0 to
    [totalAgents - 1], in that order, keeping the agents it answers. *)
Lemma listAgents_lookups (this : DimmClient) (w : World) :
  listAgents this w =
  match getProtocolConfig (wallet this) w with
  | (None, w') => (Ok [], w')
  | (Some config, w') =>
      match toNumber (totalAgents config) with
      | Throw e => (Throw e, w')
      | Ok n =>
          (found <- lookup_each this (seqZ 0 n) ;; ret (omap id found)) w'
      end
  end.
Proof.
  unfold listAgents, bind at 1, total_call.
  destruct (getProtocolConfig (wallet this) w) as [[config |] w'];
    [| reflexivity].
  unfold bind at 1, pure_call.
  destruct (toNumber (totalAgents config)) as [n | e]; [| reflexivity].
  rewrite listAgents_loop_lookup_each. cbn [app].
  destruct (Z.le_gt_cases 0 n).
  - rewrite Z2Nat.id by assumption. reflexivity.
  - rewrite (seqZ_nil 0 n) by lia.
    replace (Z.to_nat n) with 0%nat by lia. reflexivity.
Qed.

Lemma lookup_each_accounts_at (this : DimmClient) (ids : list Z) (w : World) :
  (found <- lookup_each this ids ;; ret (omap id found)) w =
  accounts_at this ids w.
Proof.
  revert w. induction ids as [| i ids IH]; intros w; [reflexivity |].
  cbn [lookup_each accounts_at].
  unfold getAgent, bind at 1 2 3, pure_call.
  destruct (getAgentAccountPDA _ _ _ _) as [[agentPDA b] | e];
    [| reflexivity].
  cbn [fst]. unfold bind at 1, total_call.
  destruct (getAgentAccount agentPDA w) as [account w1].
  rewrite <- IH. unfold bind, ret.
  destruct account as [fetched |];
    destruct (lookup_each this ids w1) as [[others | e] w2]; reflexivity.
Qed.

(** C7: without a protocol configuration [listAgents] returns the empty
    list. With one, it goes through the ids 0 to [totalAgents - 1] in
    increasing order and, for each on its own, derives the agent address and
    reads the account there: every account found comes back as the agent at
    that address, in this order, and the ids without an account are
    skipped. *)
Theorem listAgents_accounts (this : DimmClient) (w : World) :
  listAgents this w =
  match getProtocolConfig (wallet this) w with
  | (None, w') => (Ok [], w')
  | (Some config, w') =>
      match toNumber (totalAgents config) with
      | Throw e => (Throw e, w')
      | Ok n => accounts_at this (seqZ 0 n) w'
      end
  end.
Proof.
  rewrite listAgents_lookups.
  destruct (getProtocolConfig (wallet this) w) as [[config |] w'];
    [| reflexivity].
  destruct (toNumber (totalAgents config)) as [n | e]; [| reflexivity].
  apply lookup_each_accounts_at.
Qed.

(** The ids looked up are [0], ..., [totalAgents - 1], increasing. *)
Lemma seqZ_increasing (n : Z) (i j : nat) (x y : Z) :
  seqZ 0 n !! i = Some x -> seqZ 0 n !! j = Some y -> (i < j)%nat -> x < y.
Proof.
  intros [-> _]%lookup_seqZ [-> _]%lookup_seqZ Hij. lia.
Qed.

End ListAgents.

(** X15: with the reading methods as shipped there is nothing to list:
    [listAgents] returns the empty list in every world. *)
Lemma shipped_listAgents_empty {World : Type} `{!Web3 World}
  (this : DimmClient) (w : World) :
  (@listAgents World _ shipped_reads this w).1 = Ok [].
Proof.
  unfold listAgents, bind, total_call. cbn.
  unfold shipped_getProtocolConfig.
  destruct (getProtocolConfigPDA _ _ _) as [[pda b] | e]; [| reflexivity].
  destruct (getAccountInfo pda w) as [[m | [info |]] w']; reflexivity.
Qed.

(** ** Reloading an agent *)

Section Reload.

Context {World : Type} `{!ClientReads World}.

(** C9: when the fetch yields nothing, [reload] leaves the agent as it was;
    otherwise the agent's data is the fetched account. Either way the data
    after [reload] is the fetched account or the previous data. *)
Theorem reload_keeps_data_on_null (this : Agent) (w : World) :
  match getAgentAccount (address this) w with
  | (None, w') => reload this w = (Ok this, w')
  | (Some fetched, w') =>
      reload this w = (Ok (mkAgent (address this) fetched), w')
  end.
Proof.
  unfold reload, bind, total_call.
  destruct (getAgentAccount (address this) w) as [[fetched |] w'];
    reflexivity.
Qed.

Lemma reload_data_cases (this : Agent) (w : World) :
  exists after : Agent,
    (reload this w).1 = Ok after /\
    (data after = data this \/
     (getAgentAccount (address this) w).1 = Some (data after)).
Proof.
  unfold reload, bind, total_call.
  destruct (getAgentAccount (address this) w) as [[fetched |] w']; cbn; eauto.
Qed.

End Reload.

(** X27: with [getAgentAccount] as shipped, [reload] never changes the
    agent, whatever the cluster holds. *)
Lemma shipped_reload_unchanged {World : Type} `{!Web3 World} (this : Agent)
  (w : World) :
  (@reload World shipped_reads this w).1 = Ok this.
Proof.
  unfold reload, bind, total_call. cbn. unfold shipped_getAgentAccount.
  destruct (getAccountInfo (address this) w) as [[m | [info |]] w'];
    reflexivity.
Qed.

(** ** The engine: revocation and capacity *)

Module EngineProperties.
Import Engine.

Lemma is_revoked_true (id : Z) (st : State) :
  is_revoked id st = true <->
  exists a, agents st !! id = Some a /\ revoked a = true.
Proof.
  unfold is_revoked. destruct (agents st !! id) as [a |].
  - split; [eauto | intros (a' & [= <-] & H); exact H].
  - split; [discriminate | intros (a' & [=] & _)].
Qed.

Lemma apply_rejected (now : Z) (op : Op) (st : State) (e : DimmError) :
  step now op st = Rejected e -> apply now op st = st.
Proof. intros H. unfold apply. rewrite H. reflexivity. Qed.

Lemma apply_done (now : Z) (op : Op) (st st' : State) :
  step now op st = Done st' -> apply now op st = st'.
Proof. intros H. unfold apply. rewrite H. reflexivity. Qed.

Ltac open_op :=
  repeat
    match goal with
    | H : context [match ?x with _ => _ end] |- _ =>
        let E := fresh "E" in destruct x eqn:E; try discriminate H
    end.

Lemma step_keeps_well_formed (now : Z) (op : Op) (st st' : State) :
  well_formed st -> step now op st = Done st' -> well_formed st'.
Proof.
  intros Hwf Hstep id a.
  destruct op; cbn [step] in Hstep;
    unfold create, revoke, replacePermissions, updateLimits, execute, fund,
      withdraw in Hstep;
    open_op; injection Hstep as <-; cbn;
    try (apply Hwf);
    try (intros Hlook;
         apply lookup_insert_Some in Hlook as [[<- _] | [_ Hlook]];
         [| apply Hwf in Hlook]; try lia;
         match goal with
         | E : agents st !! _ = Some _ |- _ => apply Hwf in E; exact E
         end).
Qed.

Lemma step_keeps_revoked (now : Z) (op : Op) (st st' : State) (id : Z) :
  well_formed st -> is_revoked id st = true -> step now op st = Done st' ->
  is_revoked id st' = true.
Proof.
  intros Hwf Hrev Hstep.
  apply is_revoked_true in Hrev as (a & Ha & Hrevoked).
  pose proof (Hwf id a Ha) as Hid.
  apply is_revoked_true.
  destruct op; cbn [step] in Hstep;
    unfold create, revoke, replacePermissions, updateLimits, execute, fund,
      withdraw in Hstep;
    open_op; injection Hstep as <-; cbn;
    try (exists a; split; assumption);
    match goal with
    | |- context [<[?k := _]> _ !! id] =>
        destruct (decide (k = id)) as [Hsame |];
        [ rewrite Hsame, lookup_insert_eq
        | rewrite lookup_insert_ne by assumption ]
    end;
    try (exists a; split; assumption);
    try lia;
    try (simplify_eq; eexists; split; [reflexivity | cbn; congruence]).
Qed.

Lemma run_keeps_revoked (history : list (Z * Op)) (st : State) (id : Z) :
  well_formed st -> is_revoked id st = true ->
  is_revoked id (run history st) = true.
Proof.
  revert st. induction history as [| [now op] rest IH]; intros st Hwf Hrev;
    [exact Hrev |].
  cbn [run]. unfold apply.
  destruct (step now op st) as [st' | e] eqn:Hstep.
  - apply IH; eauto using step_keeps_well_formed, step_keeps_revoked.
  - apply IH; assumption.
Qed.

Lemma well_formed_initial (owner tree : PublicKey) :
  well_formed (initial owner tree).
Proof.
  intros id a Hlook. cbn in Hlook. rewrite lookup_empty in Hlook.
  discriminate.
Qed.

Lemma apply_keeps_well_formed (now : Z) (op : Op) (st : State) :
  well_formed st -> well_formed (apply now op st).
Proof.
  intros Hwf. unfold apply.
  destruct (step now op st) eqn:Hstep;
    eauto using step_keeps_well_formed.
Qed.

Lemma revoke_done (caller : PublicKey) (id : Z) (st st1 : State) :
  revoke caller id st = Done st1 ->
  exists a, agents st !! id = Some a /\ caller = mainWallet a /\
            revoked a = false /\
            st1 = with_agent id (with_revoked true a) st.
Proof.
  unfold revoke. intros Hrev.
  destruct (agents st !! id) as [a |]; [| discriminate].
  destruct (bool_decide (caller = mainWallet a)) eqn:Hown; [| discriminate].
  destruct (revoked a) eqn:Hr; [discriminate |].
  apply bool_decide_eq_true in Hown. injection Hrev as <-. eauto.
Qed.

(** C3: once a revoke has gone through, the agent is revoked; a second
    revoke is rejected with [AgentRevoked] and leaves the state as the first
    one left it; and no history of operations makes the agent active
    again. *)
Theorem revoke_twice_rejected (caller : PublicKey) (id now : Z)
  (st st1 : State) :
  well_formed st ->
  revoke caller id st = Done st1 ->
  is_revoked id st1 = true /\
  revoke caller id st1 = Rejected AgentRevoked /\
  apply now (OpRevoke caller id) st1 = st1 /\
  forall history, is_revoked id (run history st1) = true.
Proof.
  intros Hwf Hrev.
  pose proof (step_keeps_well_formed 0 (OpRevoke caller id) st st1 Hwf Hrev)
    as Hwf1.
  apply revoke_done in Hrev as (a & Ha & Hown & Hactive & ->).
  assert (Hlook : agents (with_agent id (with_revoked true a) st) !! id =
                  Some (with_revoked true a)) by apply lookup_insert_eq.
  assert (Hrevoked : is_revoked id (with_agent id (with_revoked true a) st) =
                     true) by (unfold is_revoked; rewrite Hlook; reflexivity).
  assert (Hsecond : revoke caller id (with_agent id (with_revoked true a) st) =
                    Rejected AgentRevoked).
  { unfold revoke. rewrite Hlook. cbn.
    rewrite bool_decide_eq_true_2 by exact Hown. reflexivity. }
  repeat split.
  - exact Hrevoked.
  - exact Hsecond.
  - exact (apply_rejected now (OpRevoke caller id) _ _ Hsecond).
  - intros history. apply run_keeps_revoked; assumption.
Qed.

(** C4, as the claim states it, fails: at capacity, a request with an empty
    name is rejected with [AgentNameTooLong], not [MaxAgentsReached]. *)
Lemma create_at_capacity_counterexample :
  10000 <= totalAgents (config full) /\
  create alice 40 [] [TRANSFER_SOL] 1 2 full = Rejected AgentNameTooLong /\
  create alice 40 [] [TRANSFER_SOL] 1 2 full <> Rejected MaxAgentsReached.
Proof. vm_compute. repeat split; discriminate. Qed.

(** C4, amended: with [totalAgents] at 10000 or more every creation is
    rejected and the state stays as it was: no agent appears and no counter
    moves. The error is [MaxAgentsReached] when the name has 1 to 32 code
    units and [dailyLimit >= maxPerOperation]; it is [AgentNameTooLong] when
    the name is empty or longer, and [InvalidLimitConfiguration] when the
    name is valid and the limits are not. *)
Theorem create_at_capacity_errors (owner : PublicKey) (now : Z)
  (name_ : JSString) (permissions_ : list AgentPermission)
  (maxPerOperation dailyLimit_ : Z) (st : State) :
  10000 <= totalAgents (config st) ->
  create owner now name_ permissions_ maxPerOperation dailyLimit_ st =
    Rejected
      (if negb ((1 <=? Z.of_nat (length name_)) &&
                (Z.of_nat (length name_) <=? 32))
       then AgentNameTooLong
       else if negb (maxPerOperation <=? dailyLimit_)
       then InvalidLimitConfiguration
       else MaxAgentsReached) /\
  apply now (OpCreate owner name_ permissions_ maxPerOperation dailyLimit_) st
    = st.
Proof.
  intros Hfull. apply Z.leb_le in Hfull.
  assert (Hrej :
    create owner now name_ permissions_ maxPerOperation dailyLimit_ st =
    Rejected
      (if negb ((1 <=? Z.of_nat (length name_)) &&
                (Z.of_nat (length name_) <=? 32))
       then AgentNameTooLong
       else if negb (maxPerOperation <=? dailyLimit_)
       then InvalidLimitConfiguration
       else MaxAgentsReached)).
  { unfold create. rewrite Hfull.
    destruct (negb _); [reflexivity |]. destruct (negb _); reflexivity. }
  split; [exact Hrej |].
  exact (apply_rejected now
           (OpCreate owner name_ permissions_ maxPerOperation dailyLimit_)
           st _ Hrej).
Qed.

End EngineProperties.

Lemma revoke_twice_rejected_witness :
  Engine.revoke Engine.alice 0
    (Engine.apply 20 (Engine.OpRevoke Engine.alice 0) Engine.one_agent) =
  Engine.Rejected Engine.AgentRevoked.
Proof.
  refine (proj1 (proj2
    (EngineProperties.revoke_twice_rejected Engine.alice 0 30
        Engine.one_agent _ _ _))).
  - apply EngineProperties.apply_keeps_well_formed.
    apply EngineProperties.well_formed_initial.
  - vm_compute. reflexivity.
Defined.

Lemma create_at_capacity_errors_witness :
  Engine.create Engine.alice 40 [65%N] [TRANSFER_SOL] 1 2 Engine.full =
  Engine.Rejected Engine.MaxAgentsReached.
Proof.
  exact (proj1
    (EngineProperties.create_at_capacity_errors Engine.alice 40 [65%N]
       [TRANSFER_SOL] 1 2 Engine.full ltac:(vm_compute; discriminate))).
Defined.

(** * Further properties of the SDK *)

(** ** [chunk] *)

Lemma slice_forward {A} (a : list A) (i size : Z) :
  0 <= i -> i < Z.of_nat (length a) -> 0 < size ->
  slice a i (i + size) = take (Z.to_nat size) (drop (Z.to_nat i) a).
Proof.
  intros Hi Hlen Hsize. unfold slice.
  replace (i <? 0) with false by (symmetry; apply Z.ltb_ge; lia).
  replace (i + size <? 0) with false by (symmetry; apply Z.ltb_ge; lia).
  rewrite (Z.min_l i) by lia.
  destruct (Z.le_gt_cases (i + size) (Z.of_nat (length a))) as [Hin | Hout].
  - rewrite Z.min_l by lia. f_equal. lia.
  - rewrite Z.min_r by lia.
    rewrite !take_ge; [reflexivity | |]; rewrite length_drop; lia.
Qed.

Lemma chunk_loop_forward {A} (fuel : nat) (array : list A) (size i : Z)
  (chunks : list (list A)) :
  0 < size -> 0 <= i ->
  (Z.to_nat (Z.of_nat (length array) - i) <= fuel)%nat ->
  exists rest,
    chunk_loop fuel array size i chunks = Some (chunks ++ rest) /\
    concat rest = drop (Z.to_nat i) array /\
    Forall (fun c => (0 < length c)%nat /\ Z.of_nat (length c) <= size) rest /\
    (forall k c, rest !! k = Some c -> (S k < length rest)%nat ->
                 Z.of_nat (length c) = size).
Proof.
  intros Hsize. revert i chunks.
  induction fuel as [| fuel IH]; intros i chunks Hi Hfuel.
  - exists []. cbn.
    replace (i <? Z.of_nat (length array)) with false
      by (symmetry; apply Z.ltb_ge; lia).
    rewrite app_nil_r, drop_ge by lia.
    repeat split; [constructor | intros k c Hk; discriminate Hk].
  - cbn [chunk_loop].
    destruct (i <? Z.of_nat (length array)) eqn:Hlt.
    + apply Z.ltb_lt in Hlt.
      destruct (IH (i + size) (chunks ++ [slice array i (i + size)]))
        as (rest & Hrun & Hcat & Hall & Hfull); [lia | lia |].
      rewrite slice_forward in * by lia.
      set (c := take (Z.to_nat size) (drop (Z.to_nat i) array)) in *.
      assert (Hc : length c =
                   Z.to_nat (Z.min size (Z.of_nat (length array) - i))).
      { unfold c. rewrite length_take, length_drop. lia. }
      exists (c :: rest). rewrite Hrun, <- app_assoc. split; [reflexivity |].
      split.
      { cbn [concat]. rewrite Hcat. unfold c.
        replace (Z.to_nat (i + size)) with (Z.to_nat i + Z.to_nat size)%nat
          by lia.
        rewrite <- drop_drop. apply take_drop. }
      split; [constructor; [lia | exact Hall] |].
      intros [| k] c' Hk Hlast; cbn in Hk, Hlast.
      * injection Hk as <-.
        destruct (Z.le_gt_cases (Z.of_nat (length array)) (i + size));
          [| lia].
        rewrite drop_ge in Hcat by lia.
        destruct rest as [| c1 rest1]; [cbn in Hlast; lia |].
        apply Forall_cons in Hall as [[Hpos _] _].
        cbn in Hcat. apply app_eq_nil in Hcat as [-> _]. cbn in Hpos. lia.
      * apply (Hfull k c' Hk). lia.
    + apply Z.ltb_ge in Hlt. exists [].
      rewrite app_nil_r, drop_ge by lia.
      repeat split; [constructor | intros k c Hk; discriminate Hk].
Qed.

(** X1: for a positive size, [chunk] returns (given fuel for one iteration
    per element) chunks whose concatenation is the array; no chunk is empty
    or longer than [size], and every chunk but the last has exactly [size]
    elements. *)
Theorem chunk_partitions {A} (fuel : nat) (array : list A) (size : Z) :
  0 < size -> (length array <= fuel)%nat ->
  exists chunks,
    chunk fuel array size = Some chunks /\
    concat chunks = array /\
    Forall (fun c => (0 < length c)%nat /\ Z.of_nat (length c) <= size)
      chunks /\
    (forall k c, chunks !! k = Some c -> (S k < length chunks)%nat ->
                 Z.of_nat (length c) = size).
Proof.
  intros Hsize Hfuel.
  destruct (chunk_loop_forward fuel array size 0 [] Hsize) as
    (rest & Hrun & Hcat & Hall & Hfull); [lia | lia |].
  exists rest. unfold chunk. rewrite Hrun. repeat split; assumption.
Qed.

Lemma chunk_partitions_witness :
  exists chunks,
    chunk 5 [1; 2; 3; 4; 5] 2 = Some chunks /\
    concat chunks = [1; 2; 3; 4; 5] /\
    Forall (fun c => (0 < length c)%nat /\ Z.of_nat (length c) <= 2) chunks /\
    (forall k c, chunks !! k = Some c -> (S k < length chunks)%nat ->
                 Z.of_nat (length c) = 2).
Proof. apply chunk_partitions; [lia | cbn; lia]. Defined.

Example chunk_five_by_two :
  chunk 5 [1; 2; 3; 4; 5] 2 = Some [[1; 2]; [3; 4]; [5]].
Proof. reflexivity. Qed.

Lemma chunk_loop_stuck {A} (fuel : nat) (array : list A) (size i : Z)
  (chunks : list (list A)) :
  size <= 0 -> i <= 0 -> array <> [] ->
  chunk_loop fuel array size i chunks = None.
Proof.
  intros Hsize Hi Hne. revert i chunks Hi.
  assert (Hlen : 0 < Z.of_nat (length array))
    by (destruct array; [congruence | cbn; lia]).
  induction fuel as [| fuel IH]; intros i chunks Hi; cbn [chunk_loop];
    replace (i <? Z.of_nat (length array)) with true
      by (symmetry; apply Z.ltb_lt; lia).
  - reflexivity.
  - apply IH. lia.
Qed.

(** X2: for a size of 0 or less and an array that is not empty, the loop of
    [chunk] never ends: whatever the fuel, it is still running. *)
Theorem chunk_never_returns {A} (array : list A) (size : Z) (fuel : nat) :
  size <= 0 -> array <> [] -> chunk fuel array size = None.
Proof.
  intros Hsize Hne. apply chunk_loop_stuck; [assumption | lia | assumption].
Qed.

Lemma chunk_never_returns_witness : chunk 1000 [1; 2; 3] 0 = None.
Proof. apply chunk_never_returns; [lia | discriminate]. Defined.

(** ** [compareBN] *)

Lemma cmp_proper (a b : BNobject) :
  proper a -> proper b ->
  (cmp a b = -1 <-> BN_value a < BN_value b) /\
  (cmp a b = 0 <-> BN_value a = BN_value b) /\
  (cmp a b = 1 <-> BN_value b < BN_value a).
Proof.
  destruct a as [na ma], b as [nb mb]. unfold proper, cmp, ucmp, BN_value.
  cbn. intros Ha Hb.
  destruct (N.compare_spec ma mb) as [Heq | Hlt | Hgt];
    destruct na, nb; cbn;
    try (specialize (Ha ltac:(lia))); try (specialize (Hb ltac:(lia)));
    try discriminate;
    repeat split; intros; try discriminate; try lia;
    try (exfalso;
         assert (ma = 0%N) as H0 by lia; specialize (Ha H0); discriminate);
    try (exfalso;
         assert (mb = 0%N) as H0 by lia; specialize (Hb H0); discriminate).
Qed.

Lemma cmp_range (a b : BNobject) : cmp a b = -1 \/ cmp a b = 0 \/ cmp a b = 1.
Proof.
  unfold cmp, ucmp.
  destruct (negative a), (negative b), (N.compare _ _); cbn; auto.
Qed.

Lemma cmp_swap (a b : BNobject) : cmp b a = - cmp a b.
Proof.
  unfold cmp, ucmp. rewrite (N.compare_antisym (magnitude a) (magnitude b)).
  destruct (negative a), (negative b), (N.compare _ _); reflexivity.
Qed.

Lemma compareBN_cmp (a b : BNobject) : compareBN a b = cmp a b.
Proof.
  unfold compareBN, BN_lt, BN_gt.
  destruct (cmp_range a b) as [-> | [-> | ->]]; reflexivity.
Qed.

(** X3: for operands without a sign flag on a zero, [compareBN] is the sign
    of the difference: -1 exactly for a smaller first operand, 0 exactly for
    equal operands, 1 exactly for a larger first operand. Swapping the
    operands negates it, whatever they are; and a zero with the sign flag
    set is placed below a zero without. *)
Theorem compareBN_sign (a b : BNobject) :
  (proper a -> proper b ->
   (compareBN a b = -1 <-> BN_value a < BN_value b) /\
   (compareBN a b = 0 <-> BN_value a = BN_value b) /\
   (compareBN a b = 1 <-> BN_value b < BN_value a)) /\
  compareBN b a = - compareBN a b /\
  compareBN (mkBNobject true 0) (mkBNobject false 0) = -1.
Proof.
  rewrite !compareBN_cmp. split; [apply cmp_proper |].
  split; [apply cmp_swap | reflexivity].
Qed.

Lemma compareBN_sign_witness :
  (compareBN (mkBNobject true 5) (mkBNobject false 3) = -1 <-> -5 < 3) /\
  (compareBN (mkBNobject true 5) (mkBNobject false 3) = 0 <-> -5 = 3) /\
  (compareBN (mkBNobject true 5) (mkBNobject false 3) = 1 <-> 3 < -5).
Proof.
  exact (proj1 (compareBN_sign (mkBNobject true 5) (mkBNobject false 3))
           ltac:(discriminate) ltac:(discriminate)).
Defined.

(** ** [shortenAddress] *)

Lemma slice_prefix {A} (a : list A) (n : Z) :
  0 <= n -> slice a 0 n = take (Z.to_nat n) a.
Proof.
  intros Hn. unfold slice.
  replace (n <? 0) with false by (symmetry; apply Z.ltb_ge; lia).
  cbn [Z.ltb Z.compare].
  replace (Z.to_nat (Z.min 0 (Z.of_nat (length a)))) with 0%nat by lia.
  cbn [drop].
  destruct (Z.le_gt_cases n (Z.of_nat (length a))).
  - f_equal. lia.
  - rewrite (take_ge a (Z.to_nat n)) by lia. apply take_ge. lia.
Qed.

Lemma slice_suffix {A} (a : list A) (n : Z) :
  0 < n -> n <= Z.of_nat (length a) ->
  slice a (- n) (Z.of_nat (length a)) = drop (length a - Z.to_nat n) a.
Proof.
  intros Hn Hlen. unfold slice.
  replace (- n <? 0) with true by (symmetry; apply Z.ltb_lt; lia).
  replace (Z.of_nat (length a) <? 0) with false
    by (symmetry; apply Z.ltb_ge; lia).
  replace (Z.to_nat (Z.max (Z.of_nat (length a) + - n) 0))
    with (length a - Z.to_nat n)%nat by lia.
  apply take_ge. rewrite length_drop. lia.
Qed.

Lemma slice_whole {A} (a : list A) :
  slice a 0 (Z.of_nat (length a)) = a.
Proof. rewrite slice_prefix by lia. rewrite Nat2Z.id. apply firstn_all. Qed.

Section ShortenAddress.

Variable toString : PublicKey -> JSString.

(** X4: a text longer than [2 * chars], for a positive [chars], becomes its
    first [chars] code units, three full stops, and its last [chars] code
    units: [2 * chars + 3] code units in all. *)
Theorem shortenAddress_long (text : JSString) (chars : Z) :
  0 < chars -> 2 * chars < Z.of_nat (length text) ->
  shortenAddress toString (inl text) chars =
    take (Z.to_nat chars) text ++ [46%N; 46%N; 46%N] ++
    drop (length text - Z.to_nat chars) text /\
  Z.of_nat (length (shortenAddress toString (inl text) chars)) =
    2 * chars + 3.
Proof.
  intros Hchars Hlong.
  assert (Heq : shortenAddress toString (inl text) chars =
                take (Z.to_nat chars) text ++ [46%N; 46%N; 46%N] ++
                drop (length text - Z.to_nat chars) text).
  { unfold shortenAddress.
    replace (Z.of_nat (length text) <=? chars * 2) with false
      by (symmetry; apply Z.leb_gt; lia).
    rewrite slice_prefix, slice_suffix by lia. reflexivity. }
  split; [exact Heq |].
  rewrite Heq, !length_app, length_take, length_drop. cbn [length]. lia.
Qed.

(** X5: with [chars = 0] nothing is cut: a text that is not empty comes back
    whole, after three full stops. *)
Theorem shortenAddress_zero_chars (text : JSString) :
  text <> [] ->
  shortenAddress toString (inl text) 0 = [46%N; 46%N; 46%N] ++ text.
Proof.
  intros Hne.
  assert (Hlen : 0 < Z.of_nat (length text))
    by (destruct text; [congruence | cbn; lia]).
  unfold shortenAddress.
  replace (Z.of_nat (length text) <=? 0 * 2) with false
    by (symmetry; apply Z.leb_gt; lia).
  change (- 0) with 0. rewrite slice_whole, slice_prefix by lia.
  reflexivity.
Qed.

End ShortenAddress.

Lemma shortenAddress_long_witness :
  shortenAddress (fun _ => []) (inl [65; 66; 67; 68; 69; 70; 71]%N) 2 =
  [65; 66; 46; 46; 46; 70; 71]%N.
Proof.
  exact (proj1 (shortenAddress_long (fun _ => [])
                  [65; 66; 67; 68; 69; 70; 71]%N 2 ltac:(lia)
                  ltac:(cbn; lia))).
Defined.

Lemma shortenAddress_zero_chars_witness :
  shortenAddress (fun _ => []) (inl [65; 66]%N) 0 = [46; 46; 46; 65; 66]%N.
Proof.
  exact (shortenAddress_zero_chars (fun _ => []) [65; 66]%N
           ltac:(discriminate)).
Defined.

(** ** [retry] *)

Section Retry.

Context {World A : Type} `{!Timers World}.

Variable fn : M World A.
Variable delayMs : Z.

Lemma retry_loop_step (maxRetries : Z) (count : nat) (i : Z)
  (lastError : option Error) (w : World) :
  retry_loop fn maxRetries delayMs (S count) i lastError w =
  match fn w with
  | (Ok a, w') => (inr a, w')
  | (Throw e, w') =>
      retry_loop fn maxRetries delayMs count (i + 1) (Some e)
        (if i <? maxRetries - 1 then sleep delayMs w' else w')
  end.
Proof. reflexivity. Qed.

Lemma retry_loop_first_success (maxRetries : Z) (w0 w' : World) (a : A)
  (k : nat) (count j : nat) (lastError : option Error) :
  Z.of_nat count = maxRetries - Z.of_nat j ->
  (j <= k)%nat -> Z.of_nat k < maxRetries ->
  (forall m, (j <= m < k)%nat -> attempt_fails fn delayMs w0 m) ->
  fn (world_before fn delayMs k w0) = (Ok a, w') ->
  retry_loop fn maxRetries delayMs count (Z.of_nat j) lastError
    (world_before fn delayMs j w0) = (inr a, w').
Proof.
  revert j lastError.
  induction count as [| count IH]; intros j lastError Hcount Hjk Hk Hfail Hok;
    [lia |].
  rewrite retry_loop_step.
  destruct (decide (j = k)) as [-> | Hne].
  - rewrite Hok. reflexivity.
  - destruct (Hfail j) as [e He]; [lia |].
    destruct (fn (world_before fn delayMs j w0)) as [[a' | e'] w1] eqn:Hj;
      [discriminate He |].
    replace (Z.of_nat j <? maxRetries - 1) with true
      by (symmetry; apply Z.ltb_lt; lia).
    replace (Z.of_nat j + 1) with (Z.of_nat (S j)) by lia.
    replace (sleep delayMs w1) with (world_before fn delayMs (S j) w0)
      by (cbn [world_before]; rewrite Hj; reflexivity).
    apply IH; [lia | lia | assumption | | assumption].
    intros m Hm. apply Hfail. lia.
Qed.

Lemma retry_loop_all_fail (maxRetries : Z) (w0 w' : World) (e : Error)
  (count j : nat) (lastError : option Error) :
  Z.of_nat (S count) = maxRetries - Z.of_nat j ->
  (forall m, (j <= m)%nat -> Z.of_nat m < maxRetries ->
             attempt_fails fn delayMs w0 m) ->
  fn (world_before fn delayMs (j + count) w0) = (Throw e, w') ->
  retry_loop fn maxRetries delayMs (S count) (Z.of_nat j) lastError
    (world_before fn delayMs j w0) = (inl (ThrownError e), w').
Proof.
  revert j lastError.
  induction count as [| count IH]; intros j lastError Hcount Hfail Hlast.
  - rewrite retry_loop_step. rewrite Nat.add_0_r in Hlast. rewrite Hlast.
    replace (Z.of_nat j <? maxRetries - 1) with false
      by (symmetry; apply Z.ltb_ge; lia).
    reflexivity.
  - rewrite retry_loop_step.
    destruct (Hfail j) as [e1 He1]; [lia | lia |].
    destruct (fn (world_before fn delayMs j w0)) as [[a' | e'] w1] eqn:Hj;
      [discriminate He1 |].
    replace (Z.of_nat j <? maxRetries - 1) with true
      by (symmetry; apply Z.ltb_lt; lia).
    replace (Z.of_nat j + 1) with (Z.of_nat (S j)) by lia.
    replace (sleep delayMs w1) with (world_before fn delayMs (S j) w0)
      by (cbn [world_before]; rewrite Hj; reflexivity).
    apply IH; [lia | | ].
    + intros m Hm. apply Hfail. lia.
    + replace (S j + count)%nat with (j + S count)%nat by lia. exact Hlast.
Qed.

(** X6: with [maxRetries] of 0 or less, [retry] never calls [fn]: it throws
    [undefined] at once and leaves the world as it was. *)
Theorem retry_without_attempts (maxRetries : Z) (w : World) :
  maxRetries <= 0 ->
  retry fn maxRetries delayMs w = (inl ThrownUndefined, w).
Proof.
  intros Hmax. unfold retry.
  replace (Z.to_nat maxRetries) with 0%nat by lia. reflexivity.
Qed.

(** X7: if the attempts before attempt [k] fail and attempt [k] (counted
    from 0, below [maxRetries]) returns, [retry] returns what it returned, in
    the world it left; the attempts are separated by one [sleep] each. *)
Theorem retry_returns_first_success (maxRetries : Z) (w w' : World) (a : A)
  (k : nat) :
  Z.of_nat k < maxRetries ->
  (forall m, (m < k)%nat -> attempt_fails fn delayMs w m) ->
  fn (world_before fn delayMs k w) = (Ok a, w') ->
  retry fn maxRetries delayMs w = (inr a, w').
Proof.
  intros Hk Hfail Hok. unfold retry.
  apply (retry_loop_first_success maxRetries w w' a k _ 0%nat None);
    [lia | lia | assumption | | assumption].
  intros m Hm. apply Hfail. lia.
Qed.

(** X8: if all [maxRetries] attempts fail, [retry] throws the error of the
    last attempt and stops in the world that attempt left: no [sleep]
    follows the last attempt. *)
Theorem retry_throws_last_error (maxRetries : Z) (w w' : World) (e : Error) :
  0 < maxRetries ->
  (forall m, Z.of_nat m < maxRetries -> attempt_fails fn delayMs w m) ->
  fn (world_before fn delayMs (Z.to_nat maxRetries - 1) w) = (Throw e, w') ->
  retry fn maxRetries delayMs w = (inl (ThrownError e), w').
Proof.
  intros Hmax Hfail Hlast. unfold retry.
  replace (Z.to_nat maxRetries) with (S (Z.to_nat maxRetries - 1)) by lia.
  apply (retry_loop_all_fail maxRetries w w' e _ 0%nat None);
    [lia | | exact Hlast].
  intros m _ Hm. apply Hfail. exact Hm.
Qed.

End Retry.

Lemma retry_without_attempts_witness :
  retry flaky 0 1000 5%nat = (inl ThrownUndefined, 5%nat).
Proof. apply retry_without_attempts. lia. Defined.

Lemma retry_returns_first_success_witness :
  retry flaky 3 1000 0%nat = (inr 7, 2003%nat).
Proof.
  apply (retry_returns_first_success flaky 1000 3 0%nat 2003%nat 7 2).
  - lia.
  - intros [| [| m]] Hm; [eexists; reflexivity | eexists; reflexivity | lia].
  - reflexivity.
Defined.

Lemma retry_throws_last_error_witness :
  retry flaky 2 1000 0%nat = (inl (ThrownError (External "busy")), 1002%nat).
Proof.
  apply (retry_throws_last_error flaky 1000 2 0%nat 1002%nat).
  - lia.
  - intros [| [| m]] Hm; [eexists; reflexivity | eexists; reflexivity | lia].
  - reflexivity.
Defined.

(** ** The methods that submit a transaction *)

Section WritesProperties.

Context {World : Type} `{!Web3 World} `{!JSNumber}.

Lemma submit_reports (this : DimmClient) (w : World) :
  try_catch
    (bind (library (sendAndConfirmTransaction [] [wallet this]))
       (fun sig => ret (mkTransactionResult sig true None)))
    failed w =
  submission this w.
Proof.
  unfold try_catch, bind, library, ret, failed, submission.
  destruct (sendAndConfirmTransaction [] [wallet this] w) as [[m | sig] w'];
    reflexivity.
Qed.

Lemma submission_never_throws (this : DimmClient) (w : World) :
  exists r w', submission this w = (Ok r, w') /\
               (success r = true <-> error r = None).
Proof.
  unfold submission.
  destruct (sendAndConfirmTransaction [] [wallet this] w) as [[m | sig] w'];
    eexists _, _; (split; [reflexivity |]); cbn; split; congruence.
Qed.

Lemma amount_method_cases (this : DimmClient) (amount : number) (w : World) :
  try_catch
    (bind (pure_call (solToLamports amount))
       (fun _ =>
          bind (library (sendAndConfirmTransaction [] [wallet this]))
            (fun sig => ret (mkTransactionResult sig true None))))
    failed w =
  match newBN (times amount LAMPORTS_PER_SOL) with
  | inl m => (Ok (mkTransactionResult "" false (Some m)), w)
  | inr _ => submission this w
  end.
Proof.
  unfold solToLamports.
  destruct (newBN (times amount LAMPORTS_PER_SOL)) as [m | lamports].
  - reflexivity.
  - rewrite <- submit_reports. reflexivity.
Qed.

(** X9: [revokeAgent], [updatePermissions] and [updateLimits] submit the same
    empty transaction whatever agent address, permissions or limits they are
    given, and report how that submission went. *)
Theorem argument_free_submissions (this : DimmClient)
  (agentAddress : PublicKey) (permissions_ : list JSString)
  (limits : UpdateLimitsParams) (w : World) :
  revokeAgent this agentAddress w = submission this w /\
  updatePermissions this agentAddress permissions_ w = submission this w /\
  updateLimits this agentAddress limits w = submission this w.
Proof. repeat split; apply submit_reports. Qed.

(** X10: when the amount cannot be converted to lamports, [fundAgent],
    [executeTransaction] and [withdrawFromAgent] submit nothing: the world
    stays as it was and the result carries the conversion's message. *)
Theorem unconvertible_amount_submits_nothing (this : DimmClient)
  (agentAddress : PublicKey) (params : ExecuteTransactionParams)
  (m : string) (w : World) :
  newBN (times (exec_amount params) LAMPORTS_PER_SOL) = inl m ->
  let refused := (Ok (mkTransactionResult "" false (Some m)), w) in
  fundAgent this agentAddress (exec_amount params) w = refused /\
  executeTransaction this agentAddress params w = refused /\
  withdrawFromAgent this agentAddress (exec_amount params) w = refused.
Proof.
  intros Hconv refused. unfold fundAgent, executeTransaction,
    withdrawFromAgent. rewrite !amount_method_cases, Hconv.
  repeat split.
Qed.

(** X11: none of the seven submitting methods throws: each returns a
    [TransactionResult], whose [success] flag is set exactly when it carries
    no error. *)
Theorem submitting_methods_never_throw (this : DimmClient)
  (agentAddress : PublicKey) (params : ExecuteTransactionParams)
  (permissions_ : list JSString) (limits : UpdateLimitsParams) (w : World) :
  Forall
    (fun method : M World TransactionResult =>
       exists r w', method w = (Ok r, w') /\
                    (success r = true <-> error r = None))
    [initialize this None;
     fundAgent this agentAddress (exec_amount params);
     executeTransaction this agentAddress params;
     updatePermissions this agentAddress permissions_;
     updateLimits this agentAddress limits;
     revokeAgent this agentAddress;
     withdrawFromAgent this agentAddress (exec_amount params)].
Proof.
  assert (Hrefused : forall m : string,
            exists r w',
              (Ok (mkTransactionResult "" false (Some m)), w) = (Ok r, w') /\
              (success r = true <-> error r = None)).
  { intros m. eexists _, _. split; [reflexivity |]. cbn. split; congruence. }
  assert (Hamount : forall amount,
            exists r w',
              try_catch
                (bind (pure_call (solToLamports amount))
                   (fun _ =>
                      bind
                        (library (sendAndConfirmTransaction [] [wallet this]))
                        (fun sig => ret (mkTransactionResult sig true None))))
                failed w = (Ok r, w') /\
              (success r = true <-> error r = None)).
  { intros amount. rewrite amount_method_cases.
    destruct (newBN _); [apply Hrefused | apply submission_never_throws]. }
  repeat constructor.
  - unfold initialize, try_catch at 1, bind at 1, pure_call.
    destruct (getProtocolConfigPDA _ _ _) as [pda | e]; cbn.
    + pose proof (submit_reports this w) as Hsub.
      unfold try_catch in Hsub. rewrite Hsub. apply submission_never_throws.
    + apply Hrefused.
  - apply Hamount.
  - apply Hamount.
  - unfold updatePermissions. rewrite submit_reports.
    apply submission_never_throws.
  - unfold updateLimits. rewrite submit_reports.
    apply submission_never_throws.
  - unfold revokeAgent. rewrite submit_reports.
    apply submission_never_throws.
  - apply Hamount.
Qed.

End WritesProperties.

Lemma unconvertible_amount_submits_nothing_witness :
  fundAgent demo_client [] (10000000000 : Z) 0%nat =
  (Ok (mkTransactionResult "" false (Some "Assertion failed"%string)), 0%nat).
Proof.
  exact (proj1
    (unconvertible_amount_submits_nothing demo_client []
       (mkExecuteTransactionParams _ TRANSFER (10000000000 : Z) None None)
       "Assertion failed" 0%nat eq_refl)).
Defined.

(** ** The reading methods as shipped *)

Section Shipped.

Context {World : Type} `{!Web3 World}.

Lemma shipped_getAgentAccount_null (key : PublicKey) (w : World) :
  (shipped_getAgentAccount key w).1 = None.
Proof.
  unfold shipped_getAgentAccount.
  destruct (getAccountInfo key w) as [[m | [info |]] w']; reflexivity.
Qed.

(** X12: as shipped, [getAgentAccount] and [getProtocolConfig] answer [null]
    in every world, whatever the cluster holds at the address and whether
    or not the read fails. *)
Theorem shipped_reads_answer_null (key : PublicKey) (w : World) :
  (shipped_getAgentAccount key w).1 = None /\
  (shipped_getProtocolConfig key w).1 = None.
Proof.
  split; [apply shipped_getAgentAccount_null |].
  unfold shipped_getProtocolConfig.
  - destruct (getProtocolConfigPDA _ _ _) as [[pda b] | e]; [| reflexivity].
    destruct (getAccountInfo pda w) as [[m | [info |]] w']; reflexivity.
Qed.

(** X13: as shipped, [getAgent] never finds an agent: it answers [null] or
    throws. *)
Theorem shipped_getAgent_finds_nothing (this : DimmClient) (agentId : BN)
  (w : World) (agent : Agent) :
  (@getAgent World _ shipped_reads this agentId w).1 <> Ok (Some agent).
Proof.
  unfold getAgent, bind, pure_call, total_call.
  destruct (getAgentAccountPDA _ _ _ _) as [pda | e]; [| discriminate].
  pose proof (shipped_getAgentAccount_null pda.1 w) as Hnull.
  cbn [getAgentAccount shipped_reads].
  destruct (shipped_getAgentAccount pda.1 w) as [account w'].
  cbn in Hnull. subst account. discriminate.
Qed.

(** X14: as shipped, [createAgent] never returns an agent: every call
    throws, also when the transaction it submitted was confirmed. *)
Theorem shipped_createAgent_always_throws (this : DimmClient)
  (params : CreateAgentParams) (w : World) :
  exists e, (@createAgent World _ shipped_reads this params w).1 = Throw e.
Proof.
  unfold createAgent.
  destruct (negb _); [eexists; reflexivity |].
  unfold bind at 1, pure_call at 1.
  destruct (getProtocolConfigPDA _ _ _) as [cfgPDA | e];
    [| eexists; reflexivity].
  unfold bind at 1, total_call at 1.
  destruct (getProtocolConfig (wallet this) w) as [protocolConfig w1].
  unfold bind at 1, pure_call at 1.
  destruct (getAgentAccountPDA _ _ _ _) as [pda | e];
    [| eexists; reflexivity].
  unfold try_catch, bind, library, total_call, throw, ret.
  destruct (sendAndConfirmTransaction [] [wallet this] w1) as [[m | sig] w2];
    cbn; [eexists; reflexivity |].
  pose proof (shipped_getAgentAccount_null pda.1 w2) as Hnull.
  cbn [getAgentAccount shipped_reads].
  destruct (shipped_getAgentAccount pda.1 w2) as [account w3].
  cbn in Hnull. subst account. eexists; reflexivity.
Qed.

End Shipped.

(** ** [createAgent] and [getAgent], whatever the reading methods *)

Section CreateAgentMore.

Context {World : Type} `{!Web3 World} `{!ClientReads World}.

(** X16: when [createAgent] returns an agent, the name it was given is
    valid and the agent sits at the agent address derived from the wallet
    and the id [totalAgents] of the configuration read, or the id 0 when
    there is no configuration. *)
Theorem createAgent_returns_agent_at_pda (this : DimmClient)
  (params : CreateAgentParams) (w w' : World) (agent : Agent) :
  createAgent this params w = (Ok agent, w') ->
  validateAgentName (params_name params) = true /\
  exists (config : option ProtocolConfig) (w1 : World) (b : Z),
    getProtocolConfig (wallet this) w = (config, w1) /\
    getAgentAccountPDA findProgramAddressSync (wallet this)
      (match config with
       | Some c => totalAgents c
       | None => 0
       end) DIMM_PROGRAM_ID = Ok (address agent, b).
Proof.
  unfold createAgent.
  destruct (validateAgentName (params_name params)); cbn [negb];
    [| discriminate].
  unfold bind at 1, pure_call at 1.
  destruct (getProtocolConfigPDA _ _ _) as [cfgPDA | e]; [| discriminate].
  unfold bind at 1, total_call at 1.
  destruct (getProtocolConfig (wallet this) w) as [config w1].
  unfold bind at 1, pure_call at 1.
  destruct (getAgentAccountPDA _ _ _ _) as [[pda b] | e] eqn:Hpda;
    [| discriminate].
  unfold try_catch, bind, library, total_call, throw, ret. cbn [fst].
  destruct (sendAndConfirmTransaction [] [wallet this] w1) as [[m | sig] w2];
    cbn; [discriminate |].
  destruct (getAgentAccount pda w2) as [[account |] w3]; [| discriminate].
  intros [= <- <-]. split; [reflexivity |].
  exists config, w1, b. split; [reflexivity | exact Hpda].
Qed.

(** X17: the errors [createAgent] can end with: the name-validation error,
    an error of a library raised while deriving the addresses, or
    "Failed to create agent: ..." for anything that goes wrong from the
    submission on. *)
Theorem createAgent_error_kinds (this : DimmClient)
  (params : CreateAgentParams) (w : World) (e : Error) :
  (createAgent this params w).1 = Throw e ->
  e = InvalidAgentName \/ (exists m, e = External m) \/
  (exists cause, e = FailedToCreateAgent cause).
Proof.
  unfold createAgent.
  destruct (negb _); [intros [= <-]; auto |].
  unfold bind at 1, pure_call at 1.
  destruct (getProtocolConfigPDA _ _ _) as [cfgPDA | e0] eqn:HcfgPDA; cbn.
  2: { intros [= <-]. right. left.
       exact (getProtocolConfigPDA_throws_External _ _ _ HcfgPDA). }
  unfold bind at 1, total_call at 1.
  destruct (getProtocolConfig (wallet this) w) as [config w1].
  unfold bind at 1, pure_call at 1.
  destruct (getAgentAccountPDA _ _ _ _) as [pda | e0] eqn:Hpda; cbn.
  2: { intros [= <-]. right. left.
       exact (getAgentAccountPDA_throws_External _ _ _ _ Hpda). }
  unfold try_catch.
  match goal with
  | |- context [let (_, _) := ?body w1 in _] => destruct (body w1) as [[] ?]
  end; cbn; [discriminate |].
  intros [= <-]. right. right. eauto.
Qed.

End CreateAgentMore.

Lemma createAgent_returns_agent_at_pda_witness :
  validateAgentName [65%N] = true /\
  exists (config : option ProtocolConfig) (w1 : nat) (b : Z),
    getProtocolConfig (wallet demo_client) 0%nat = (config, w1) /\
    getAgentAccountPDA findProgramAddressSync (wallet demo_client)
      (match config with
       | Some c => totalAgents c
       | None => 0
       end) DIMM_PROGRAM_ID =
    Ok (address (createAgent_demo_result.1), b).
Proof.
  exact (createAgent_returns_agent_at_pda demo_client
           (mkCreateAgentParams [65%N] [TRANSFER_SOL] 1 1) 0%nat
           createAgent_demo_result.2 createAgent_demo_result.1 eq_refl).
Defined.

Lemma createAgent_error_kinds_witness :
  InvalidAgentName = InvalidAgentName \/
  (exists m, InvalidAgentName = External m) \/
  (exists cause, InvalidAgentName = FailedToCreateAgent cause).
Proof.
  exact (createAgent_error_kinds demo_client
           (mkCreateAgentParams [] [TRANSFER_SOL] 1 1) 0%nat
           InvalidAgentName eq_refl).
Defined.

(** ** [getStats] and [formatTimestamp] *)

Lemma toNumber_Ok_iff (a : BN) :
  (exists n, toNumber a = Ok n) <-> Z.abs a < 2 ^ 53.
Proof.
  unfold toNumber. destruct (Z.abs a <? 2 ^ 53) eqn:H.
  - apply Z.ltb_lt in H. split; eauto.
  - apply Z.ltb_ge in H. split; [intros [n [=]] | lia].
Qed.

Lemma toNumber_Ok (a : BN) : Z.abs a < 2 ^ 53 -> toNumber a = Ok a.
Proof.
  intros H. unfold toNumber.
  replace (Z.abs a <? 2 ^ 53) with true by (symmetry; apply Z.ltb_lt; lia).
  reflexivity.
Qed.

Lemma toNumber_inv (a n : BN) :
  toNumber a = Ok n -> n = a /\ Z.abs a < 2 ^ 53.
Proof.
  unfold toNumber. destruct (Z.abs a <? 2 ^ 53) eqn:H; intros [= <-].
  apply Z.ltb_lt in H. auto.
Qed.

Lemma getStats_Ok_inv (this : Agent) (s : AgentStats) :
  getStats this = Ok s ->
  stats_totalSpent s = (totalSpent (data this) # 1000000000)%Q /\
  stats_spentToday s = (spentToday (data this) # 1000000000)%Q /\
  stats_totalTransactions s = totalTransactions (data this) /\
  stats_remainingDailyLimit s =
    ((dailyLimit (data this) - spentToday (data this)) # 1000000000)%Q /\
  Z.abs (totalSpent (data this)) < 2 ^ 53 /\
  Z.abs (spentToday (data this)) < 2 ^ 53 /\
  Z.abs (totalTransactions (data this)) < 2 ^ 53 /\
  Z.abs (dailyLimit (data this) - spentToday (data this)) < 2 ^ 53 /\
  Z.abs (createdAt (data this)) < 2 ^ 53 /\
  Z.abs (lastUsedAt (data this)) < 2 ^ 53.
Proof.
  unfold getStats, lamportsToSol, formatTimestamp, sub.
  destruct (toNumber (totalSpent _)) as [n1 |] eqn:H1; [| discriminate].
  destruct (toNumber (spentToday _)) as [n2 |] eqn:H2; [| discriminate].
  destruct (toNumber (totalTransactions _)) as [n3 |] eqn:H3;
    [| discriminate].
  destruct (toNumber (dailyLimit _ - _)) as [n4 |] eqn:H4; [| discriminate].
  destruct (toNumber (createdAt _)) as [n5 |] eqn:H5; [| discriminate].
  destruct (toNumber (lastUsedAt _)) as [n6 |] eqn:H6; [| discriminate].
  cbn. intros [= <-]. cbn.
  apply toNumber_inv in H1 as [-> ?], H2 as [-> ?], H3 as [-> ?],
    H4 as [-> ?], H5 as [-> ?], H6 as [-> ?].
  repeat split; assumption.
Qed.

(** X18: [getStats] returns exactly when the six numbers it converts fit in
    53 bits: the two totals, the count, the difference between the daily
    limit and the day's total, and the two timestamps. Otherwise it
    throws. *)
Theorem getStats_returns_iff (this : Agent) :
  (exists s, getStats this = Ok s) <->
  Z.abs (totalSpent (data this)) < 2 ^ 53 /\
  Z.abs (spentToday (data this)) < 2 ^ 53 /\
  Z.abs (totalTransactions (data this)) < 2 ^ 53 /\
  Z.abs (dailyLimit (data this) - spentToday (data this)) < 2 ^ 53 /\
  Z.abs (createdAt (data this)) < 2 ^ 53 /\
  Z.abs (lastUsedAt (data this)) < 2 ^ 53.
Proof.
  split.
  - intros [s Hs]. apply getStats_Ok_inv in Hs. tauto.
  - intros (H1 & H2 & H3 & H4 & H5 & H6).
    unfold getStats, lamportsToSol, formatTimestamp, sub.
    rewrite !toNumber_Ok by assumption. cbn. eauto.
Qed.


(** X20: [getStats] does not clamp: the remaining daily limit it reports is
    negative exactly when the day's total exceeds the daily limit. *)
Theorem getStats_remaining_negative_iff (this : Agent) (s : AgentStats) :
  getStats this = Ok s ->
  (stats_remainingDailyLimit s < 0)%Q <->
  dailyLimit (data this) < spentToday (data this).
Proof.
  intros Hstats.
  apply getStats_Ok_inv in Hstats as (_ & _ & _ & -> & _).
  unfold Qlt. cbn. lia.
Qed.

(** X21: [formatTimestamp] has three regimes: up to 8.64e12 seconds either
    side of the epoch it gives the date with that many milliseconds times
    1000; beyond that and below 2^53 it gives an invalid date; from 2^53 on
    it throws. *)
Theorem formatTimestamp_regimes (timestamp : BN) :
  (Z.abs timestamp <= 8640000000000 ->
   formatTimestamp timestamp = Ok (Some (timestamp * 1000))) /\
  (8640000000000 < Z.abs timestamp < 2 ^ 53 ->
   formatTimestamp timestamp = Ok None) /\
  (2 ^ 53 <= Z.abs timestamp ->
   exists e, formatTimestamp timestamp = Throw e).
Proof.
  unfold formatTimestamp, toNumber. repeat split.
  - intros H.
    replace (Z.abs timestamp <? 2 ^ 53) with true
      by (symmetry; apply Z.ltb_lt; lia).
    cbn [Result_bind].
    replace (Z.abs (timestamp * 1000) <=? 8640000000000000) with true
      by (symmetry; apply Z.leb_le; lia).
    reflexivity.
  - intros H.
    replace (Z.abs timestamp <? 2 ^ 53) with true
      by (symmetry; apply Z.ltb_lt; lia).
    cbn [Result_bind].
    replace (Z.abs (timestamp * 1000) <=? 8640000000000000) with false
      by (symmetry; apply Z.leb_gt; lia).
    reflexivity.
  - intros H.
    replace (Z.abs timestamp <? 2 ^ 53) with false
      by (symmetry; apply Z.ltb_ge; lia).
    eexists. reflexivity.
Qed.



Lemma getStats_remaining_negative_iff_witness :
  (-1000000000 # 1000000000 < 0)%Q <-> 1000000000 < 2000000000.
Proof.
  exact (getStats_remaining_negative_iff
           (Agent_with_data (with_spentToday 2000000000) spent_out)
           (mkAgentStats (1000000000 # 1000000000)
              (2000000000 # 1000000000) 10 (-1000000000 # 1000000000)
              (Some 0) (Some 0))
           eq_refl).
Defined.

Lemma formatTimestamp_regimes_witness :
  formatTimestamp 1700000000 = Ok (Some 1700000000000) /\
  formatTimestamp 8640000000001 = Ok None /\
  exists e, formatTimestamp (2 ^ 53) = Throw e.
Proof.
  split; [| split].
  - exact (proj1 (formatTimestamp_regimes 1700000000) ltac:(lia)).
  - exact (proj1 (proj2 (formatTimestamp_regimes 8640000000001))
             ltac:(lia)).
  - exact (proj2 (proj2 (formatTimestamp_regimes (2 ^ 53))) ltac:(lia)).
Defined.

(** ** More on the address derivation *)

Section DerivationMore.

Variable findProgramAddressSync :
  list Buffer -> PublicKey -> string + (PublicKey * Z).

(** X22: for a counter below 0 or from 2^64 on, [getAgentAccountPDA] and
    [getActivityPDA] throw, whatever the address search would answer. *)
Theorem pda_counter_out_of_range (key programId : PublicKey) (counter : BN) :
  counter < 0 \/ 2 ^ 64 <= counter ->
  (exists e, getAgentAccountPDA findProgramAddressSync key counter programId =
             Throw e) /\
  (exists e, getActivityPDA findProgramAddressSync key counter programId =
             Throw e).
Proof.
  intros Hrange.
  destruct (writeBigUInt64LE_out_of_range counter Hrange) as [e He].
  unfold getAgentAccountPDA, getActivityPDA. rewrite He. cbn. eauto.
Qed.

End DerivationMore.

(** X23: the seeds of two agent accounts coincide only for the same owner
    and the same agent id: ids in the range of 64 bits are told apart by
    their 8 bytes. *)
Theorem agent_seeds_injective (owner owner' : PublicKey) (id id' : BN)
  (idBytes idBytes' : Buffer) :
  0 <= id < 2 ^ 64 -> 0 <= id' < 2 ^ 64 ->
  writeBigUInt64LE id = Ok idBytes ->
  writeBigUInt64LE id' = Ok idBytes' ->
  [AGENT_SEED; owner; idBytes] = [AGENT_SEED; owner'; idBytes'] ->
  owner = owner' /\ id = id'.
Proof.
  intros Hid Hid' Hbytes Hbytes' [= -> ->]. split; [reflexivity |].
  destruct (writeBigUInt64LE_in_range id Hid) as (b & Hb & _ & Hval).
  destruct (writeBigUInt64LE_in_range id' Hid') as (b' & Hb' & _ & Hval').
  congruence.
Qed.

Lemma pda_counter_out_of_range_witness :
  exists e, getAgentAccountPDA joined_seeds [] (2 ^ 64) [] = Throw e.
Proof.
  exact (proj1 (pda_counter_out_of_range joined_seeds [] [] (2 ^ 64)
                  ltac:(lia))).
Defined.

Lemma agent_seeds_injective_witness :
  wallet demo_client = wallet demo_client /\ 258 = 258.
Proof.
  exact (agent_seeds_injective (wallet demo_client) (wallet demo_client)
           258 258
           ["002"; "001"; "000"; "000"; "000"; "000"; "000"; "000"]%byte
           ["002"; "001"; "000"; "000"; "000"; "000"; "000"; "000"]%byte
           ltac:(lia) ltac:(lia) eq_refl eq_refl eq_refl).
Defined.

(** ** More on [listAgents] *)

Section ListAgentsMore.

Context {World : Type} `{!Web3 World} `{!ClientReads World}.

Local Open Scope client_scope.

Lemma length_omap_id {A} (l : list (option A)) :
  (length (omap id l) <= length l)%nat.
Proof. induction l as [| [x |] l IH]; cbn; lia. Qed.

Lemma getAgent_found (this : DimmClient) (id : Z) (w w' : World) (a : Agent) :
  getAgent this id w = (Ok (Some a), w') -> at_agent_address this id a.
Proof.
  unfold getAgent, bind, pure_call, total_call, ret, at_agent_address.
  destruct (getAgentAccountPDA _ _ _ _) as [[pda b] | e]; [| discriminate].
  cbn [fst].
  destruct (getAgentAccount pda w) as [[account |] w1]; intros [= <- <-].
  exists b. reflexivity.
Qed.

Lemma lookup_each_found (this : DimmClient) (ids : list Z) (w w' : World)
  (found : list (option Agent)) :
  lookup_each this ids w = (Ok found, w') ->
  length found = length ids /\
  exists ids', ids' `sublist_of` ids /\
               Forall2 (at_agent_address this) ids' (omap id found).
Proof.
  revert w found. induction ids as [| i ids IH]; intros w found.
  - cbn. intros [= <- <-]. split; [reflexivity |].
    exists []. split; constructor.
  - cbn [lookup_each]. unfold bind at 1.
    destruct (getAgent this i w) as [[first | e] w1] eqn:Hfirst;
      [| discriminate].
    unfold bind at 1.
    destruct (lookup_each this ids w1) as [[others | e] w2] eqn:Hothers;
      [| discriminate].
    intros [= <- <-].
    destruct (IH w1 others Hothers) as (Hlen & ids' & Hsub & Hall).
    split; [cbn; lia |].
    destruct first as [a |]; cbn.
    + exists (i :: ids'). split; [by apply sublist_skip |].
      constructor; [exact (getAgent_found _ _ _ _ _ Hfirst) | exact Hall].
    + exists ids'. split; [by apply sublist_cons | exact Hall].
Qed.

Lemma listAgents_Ok_inv (this : DimmClient) (w w' w1 : World)
  (config : ProtocolConfig) (agents : list Agent) :
  getProtocolConfig (wallet this) w = (Some config, w1) ->
  listAgents this w = (Ok agents, w') ->
  exists found,
    lookup_each this (seqZ 0 (totalAgents config)) w1 = (Ok found, w') /\
    agents = omap id found.
Proof.
  intros Hconfig. unfold listAgents, bind at 1, total_call.
  rewrite Hconfig. unfold bind at 1, pure_call.
  destruct (toNumber (totalAgents config)) as [n | e] eqn:Hn; [| discriminate].
  apply toNumber_inv in Hn as [-> _].
  rewrite listAgents_loop_lookup_each. cbn [app].
  replace (seqZ 0 (Z.of_nat (Z.to_nat (totalAgents config))))
    with (seqZ 0 (totalAgents config)).
  2: { destruct (Z.le_gt_cases 0 (totalAgents config)).
       - rewrite Z2Nat.id by assumption. reflexivity.
       - rewrite !seqZ_nil by lia. reflexivity. }
  unfold bind, ret.
  destruct (lookup_each this _ w1) as [[found | e] w2]; [| discriminate].
  intros [= <- <-]. eauto.
Qed.

(** X24: [listAgents] returns at most [totalAgents] agents. *)
Theorem listAgents_at_most_totalAgents (this : DimmClient) (w w' w1 : World)
  (config : ProtocolConfig) (agents : list Agent) :
  getProtocolConfig (wallet this) w = (Some config, w1) ->
  listAgents this w = (Ok agents, w') ->
  Z.of_nat (length agents) <= Z.max 0 (totalAgents config).
Proof.
  intros Hconfig Hlist.
  destruct (listAgents_Ok_inv this w w' w1 config agents Hconfig Hlist)
    as (found & Hfound & ->).
  apply lookup_each_found in Hfound as [Hlen _].
  pose proof (length_omap_id found) as Hle.
  rewrite length_seqZ in Hlen. lia.
Qed.

(** X25: the agents [listAgents] returns sit, one after the other, at the
    agent addresses derived for an increasing selection of the ids
    [0], ..., [totalAgents - 1]. *)
Theorem listAgents_addresses (this : DimmClient) (w w' w1 : World)
  (config : ProtocolConfig) (agents : list Agent) :
  getProtocolConfig (wallet this) w = (Some config, w1) ->
  listAgents this w = (Ok agents, w') ->
  exists ids,
    ids `sublist_of` seqZ 0 (totalAgents config) /\
    Forall2 (at_agent_address this) ids agents.
Proof.
  intros Hconfig Hlist.
  destruct (listAgents_Ok_inv this w w' w1 config agents Hconfig Hlist)
    as (found & Hfound & ->).
  apply lookup_each_found in Hfound as [_ Hids]. exact Hids.
Qed.

(** X26: with [totalAgents] of 0 (or a negative number of less than 53
    bits) [listAgents] returns the empty list without a lookup; with
    [totalAgents] of 2^53 or more it throws, again without a lookup: the
    world is as the read of the configuration left it. *)
Theorem listAgents_degenerate_counts (this : DimmClient) (w w1 : World)
  (config : ProtocolConfig) :
  getProtocolConfig (wallet this) w = (Some config, w1) ->
  (- 2 ^ 53 < totalAgents config <= 0 -> listAgents this w = (Ok [], w1)) /\
  (2 ^ 53 <= totalAgents config ->
   exists e, listAgents this w = (Throw e, w1)).
Proof.
  intros Hconfig.
  split; intros Hn; unfold listAgents, bind at 1, total_call;
    rewrite Hconfig; unfold bind at 1, pure_call, toNumber.
  - replace (Z.abs (totalAgents config) <? 2 ^ 53) with true
      by (symmetry; apply Z.ltb_lt; lia).
    replace (Z.to_nat (totalAgents config)) with 0%nat by lia.
    reflexivity.
  - replace (Z.abs (totalAgents config) <? 2 ^ 53) with false
      by (symmetry; apply Z.ltb_ge; lia).
    eexists. reflexivity.
Qed.

End ListAgentsMore.

Lemma listAgents_on_demo :
  exists agents w',
    listAgents demo_client 0%nat = (Ok agents, w') /\ length agents = 2%nat.
Proof. eexists _, _. split; reflexivity. Qed.

Lemma listAgents_at_most_totalAgents_witness :
  Z.of_nat (length listAgents_demo_result.1) <= Z.max 0 3.
Proof.
  exact (listAgents_at_most_totalAgents demo_client 0%nat
           listAgents_demo_result.2 1%nat
           (mkProtocolConfig (wallet demo_client) [] 3 1 false 255)
           listAgents_demo_result.1 eq_refl eq_refl).
Defined.

Lemma listAgents_addresses_witness :
  exists ids,
    ids `sublist_of` seqZ 0 3 /\
    Forall2 (at_agent_address demo_client) ids listAgents_demo_result.1.
Proof.
  exact (listAgents_addresses demo_client 0%nat listAgents_demo_result.2
           1%nat (mkProtocolConfig (wallet demo_client) [] 3 1 false 255)
           listAgents_demo_result.1 eq_refl eq_refl).
Defined.

Lemma listAgents_degenerate_counts_witness :
  @listAgents nat demo_web3 (demo_reads_with 0) demo_client 0%nat =
    (Ok [], 1%nat) /\
  exists e,
    @listAgents nat demo_web3 (demo_reads_with (2 ^ 53)) demo_client 0%nat =
    (Throw e, 1%nat).
Proof.
  split.
  - exact (proj1
      (@listAgents_degenerate_counts nat demo_web3 (demo_reads_with 0)
         demo_client 0%nat 1%nat
         (mkProtocolConfig (wallet demo_client) [] 0 1 false 255) eq_refl)
      ltac:(cbn; lia)).
  - exact (proj2
      (@listAgents_degenerate_counts nat demo_web3
         (demo_reads_with (2 ^ 53)) demo_client 0%nat 1%nat
         (mkProtocolConfig (wallet demo_client) [] (2 ^ 53) 1 false 255)
         eq_refl)
      ltac:(cbn; lia)).
Defined.
